(** * mic-match: the match and songs API routes, the stream hook and the
      result view, embedded in Rocq.

    The TypeScript sources embedded here are
    - [app/api/match/route.ts]: [isValidYouTubeUrl] and [POST] of the
      match route, and the [GET] of the songs route that follows them,
    - [app/hooks/useMatchStream.ts]: [startMatch] and [stopMatch],
    - [app/hooks/useSongs.ts]: [fetchSongs],
    - [app/page.tsx]: [validateYouTubeUrl] with its regular expression,
      [handleAnalyze] with the handler of one SSE event, the results
      section, [groupedSongs] and the song list,
    - [app/components/MatchExample.tsx]: [handleSubmit],
      [getProgressColor] and [getConfidenceColor],
    - [app/api/types.ts]: the confidence levels.

    JavaScript values are a small inductive type, exceptions are an error
    monad, the platform functions the code calls ([JSON.parse], [new URL],
    [fetch], the stream reader, [readFileSync]) are parameters or scripted
    inputs, and React state is an explicit record threaded through the
    handlers.  A stream of the backend is a finite list of decoded chunks
    followed by [done] or by a failing read; the client of a route is
    taken to stay connected, so that [controller.enqueue] succeeds. *)

From Stdlib Require Import String Ascii List Bool Arith ZArith QArith Lia Lqa.
From Stdlib Require Import DecimalString.
Import ListNotations.

Set Warnings "-register-all".

Local Close Scope Q_scope.
Local Open Scope string_scope.
Local Open Scope list_scope.
Local Open Scope nat_scope.

(* ================================================================= *)
(** ** JavaScript values *)

Module JS.

(** Numbers are rationals: the code never computes with the numbers it
    receives, it copies them and tests them for truthiness.  Strings are
    sequences of 8-bit code units. *)
Inductive JSValue : Type :=
| JUndefined
| JNull
| JBool (b : bool)
| JNum (q : Q)
| JStr (s : string)
| JArr (items : list JSValue)
| JObj (fields : list (string * JSValue)).

(** What a [throw] carries: an [Error] instance with its message, or any
    other value. *)
Inductive Thrown : Type :=
| ErrorObject (message : string)
| NonError (v : JSValue).

Inductive Outcome (A : Type) : Type :=
| Ok (a : A)
| Throw (e : Thrown).

Arguments Ok {A} a.
Arguments Throw {A} e.

Definition bind {A B} (c : Outcome A) (k : A -> Outcome B) : Outcome B :=
  match c with
  | Ok a => k a
  | Throw e => Throw e
  end.

(** [try { c } catch (e) { h e }] *)
Definition try_catch {A} (c : Outcome A) (h : Thrown -> Outcome A) : Outcome A :=
  match c with
  | Ok a => Ok a
  | Throw e => h e
  end.

Notation "x <- c ;; k" := (bind c (fun x => k))
  (at level 61, c at next level, right associativity).

(** [error instanceof Error ? error.message : fallback] *)
Definition message_or (e : Thrown) (fallback : string) : string :=
  match e with
  | ErrorObject m => m
  | NonError _ => fallback
  end.

Definition num (n : nat) : JSValue := JNum (inject_Z (Z.of_nat n)).

(** ToBoolean *)
Definition truthy (v : JSValue) : bool :=
  match v with
  | JUndefined | JNull => false
  | JBool b => b
  | JNum q => negb (Z.eqb (Qnum q) 0)
  | JStr s => negb (String.eqb s "")
  | JArr _ | JObj _ => true
  end.

(** [a || b] on already evaluated operands whose evaluation has no effect *)
Definition js_or (a b : JSValue) : JSValue := if truthy a then a else b.

(** [v === 'literal'] *)
Definition strict_eq_str (v : JSValue) (lit : string) : bool :=
  match v with
  | JStr s => String.eqb s lit
  | _ => false
  end.

Fixpoint lookup (k : string) (fs : list (string * JSValue)) : option JSValue :=
  match fs with
  | [] => None
  | (k', v) :: rest => if String.eqb k k' then Some v else lookup k rest
  end.

(** V8's message for a property read on [undefined] or [null]. *)
Definition cannot_read (v : JSValue) (k : string) : string :=
  "Cannot read properties of "
    ++ (match v with JNull => "null" | _ => "undefined" end)
    ++ " (reading '" ++ k ++ "')".

(** [v.k] for the property names the sources read that no built-in
    prototype of the receiver defines ([status], [progress], [message],
    [error], [match], [artist], [title], [genre], [confidence],
    [audio_similarity], [lyrics_similarity], [youtubeUrl], ...): an own
    property of an object, [undefined] on any other value, and a
    [TypeError] on [undefined] and [null]. *)
Definition get_prop (v : JSValue) (k : string) : Outcome JSValue :=
  match v with
  | JUndefined | JNull => Throw (ErrorObject (cannot_read v k))
  | JObj fs => Ok (match lookup k fs with Some x => x | None => JUndefined end)
  | _ => Ok JUndefined
  end.

(** [v.length]: defined on arrays and strings. *)
Definition get_length (v : JSValue) : Outcome JSValue :=
  match v with
  | JArr items => Ok (num (List.length items))
  | JStr s => Ok (num (String.length s))
  | _ => get_prop v "length"
  end.

Definition remove_key (k : string) (fs : list (string * JSValue))
  : list (string * JSValue) :=
  filter (fun kv => negb (String.eqb k (fst kv))) fs.

(** The members of the JSON text of an object, given the JSON value [w x]
    of each property value [x]: a property whose value is [undefined] is
    not serialised.  A key stands for its first entry, as in [lookup]. *)
Definition wire_members (w : JSValue -> JSValue)
  : list (string * JSValue) -> list (string * JSValue) :=
  fix members (l : list (string * JSValue)) : list (string * JSValue) :=
    match l with
    | [] => []
    | (k, x) :: r =>
        match x with
        | JUndefined => remove_key k (members r)
        | _ => (k, w x) :: remove_key k (members r)
        end
    end.

(** [JSON.parse(JSON.stringify(v))], the value a reader of the JSON text
    of [v] gets; [undefined] in an array is serialised as [null]. *)
Fixpoint wire (v : JSValue) : JSValue :=
  match v with
  | JArr items =>
      JArr (map (fun x => match x with JUndefined => JNull | _ => wire x end) items)
  | JObj fs => JObj (wire_members wire fs)
  | _ => v
  end.

(** The member [k] of the JSON text of [v], if it has one. *)
Definition wire_field (v : JSValue) (k : string) : option JSValue :=
  match wire v with
  | JObj fs => lookup k fs
  | _ => None
  end.


(* ----------------------------------------------------------------- *)
(** *** String methods *)

Definition newline : string := String "010"%char "".

Definition startsWith (s p : string) : bool := String.prefix p s.

Fixpoint includes (s sub : string) : bool :=
  String.prefix sub s ||
  match s with
  | EmptyString => false
  | String _ t => includes t sub
  end.

Fixpoint endsWith (s suf : string) : bool :=
  String.eqb s suf ||
  match s with
  | EmptyString => false
  | String _ t => endsWith t suf
  end.

(** [s.substring(n)] *)
Fixpoint substring_from (n : nat) (s : string) : string :=
  match n, s with
  | O, _ => s
  | S _, EmptyString => EmptyString
  | S n', String _ t => substring_from n' t
  end.

Definition lower_char (c : ascii) : ascii :=
  let n := nat_of_ascii c in
  if ((65 <=? n) && (n <=? 90)) || ((192 <=? n) && (n <=? 222) && negb (n =? 215))
  then ascii_of_nat (n + 32) else c.

Fixpoint toLowerCase (s : string) : string :=
  match s with
  | EmptyString => EmptyString
  | String c t => String (lower_char c) (toLowerCase t)
  end.

(** White space and line terminators among the 8-bit code units. *)
Definition is_space (c : ascii) : bool :=
  let n := nat_of_ascii c in
  ((9 <=? n) && (n <=? 13)) || (n =? 32) || (n =? 160).

Fixpoint trimStart (s : string) : string :=
  match s with
  | EmptyString => EmptyString
  | String c t => if is_space c then trimStart t else s
  end.

Fixpoint trimEnd (s : string) : string :=
  match s with
  | EmptyString => EmptyString
  | String c t =>
      match trimEnd t with
      | EmptyString => if is_space c then EmptyString else String c EmptyString
      | t' => String c t'
      end
  end.

Definition trim (s : string) : string := trimEnd (trimStart s).

(** [s.split('\n')]: never empty. *)
Fixpoint split_lines (s : string) : list string :=
  match s with
  | EmptyString => [EmptyString]
  | String c t =>
      if Ascii.eqb c "010"%char then EmptyString :: split_lines t
      else match split_lines t with
           | h :: r => String c h :: r
           | [] => [String c EmptyString]
           end
  end.

(** [const last = lines.pop()]: the array without its last element, and
    that element ([undefined], here [None], on an empty array). *)
Definition pop {A} (l : list A) : list A * option A :=
  match rev l with
  | [] => ([], None)
  | x :: r => (rev r, Some x)
  end.

(** The lines of [s] that a newline ends, and the unfinished rest. *)
Definition complete_lines (s : string) : list string := fst (pop (split_lines s)).

Definition unfinished_line (s : string) : string :=
  match snd (pop (split_lines s)) with
  | Some l => l
  | None => ""
  end.

(** [String(n)] for a non-negative integer. *)
Definition nat_to_string (n : nat) : string :=
  NilEmpty.string_of_uint (Nat.to_uint n).

End JS.

(* ================================================================= *)
(** ** app/api/match/route.ts *)

Module MatchRoute.
Import JS.

(** The parts of a [URL] object the route reads. *)
Record URL : Type := {
  hostname : string;
  pathname : string;
  searchParams : list (string * string)
}.

(** What the route is given from outside: the body of the request as
    [request.json()] resolves or rejects, and the Python backend. *)
Record ReadScript : Type := {
  chunks : list string;          (* what successive [reader.read()] calls decode to *)
  failure : option Thrown        (* [None]: the reader reports [done]; else [read()] rejects *)
}.

Record BackendResponse : Type := {
  status : nat;
  text : Outcome string;         (* [await response.text()] *)
  body : option ReadScript       (* [response.body], [None] when it is null *)
}.

Inductive FetchResult : Type :=
| Rejects (e : Thrown)
| Resolves (r : BackendResponse).

(** [response.ok] *)
Definition ok (r : BackendResponse) : bool :=
  (200 <=? status r) && (status r <=? 299).

Inductive HttpResponse : Type :=
| JsonResponse (code : nat) (payload : JSValue)   (* [NextResponse.json(payload, {status: code})] *)
| EventStream (frames : list JSValue).            (* the [update]s enqueued, in order, then [close()] *)

(** The response together with the JSON payloads posted to the backend's
    [/process] while producing it. *)
Record Exchange : Type := {
  response : HttpResponse;
  backend_calls : list JSValue
}.

Section Route.

Variable new_URL : JSValue -> Outcome URL.
Variable JSON_parse : string -> Outcome JSValue.

Definition validDomains : list string :=
  ["youtube.com"; "www.youtube.com"; "m.youtube.com"; "youtu.be"].

Definition searchParams_has (u : URL) (name : string) : bool :=
  existsb (fun kv => String.eqb (fst kv) name) (searchParams u).

(** The [try] block of [isValidYouTubeUrl]. *)
Definition isValidYouTubeUrl_try (url : JSValue) : Outcome bool :=
  urlObj <- new_URL url ;;
  let hostname := toLowerCase (hostname urlObj) in
  if negb (existsb (fun domain =>
                      String.eqb hostname domain || endsWith hostname ("." ++ domain))
                   validDomains)
  then Ok false
  else if includes hostname "youtu.be"
  then Ok (1 <? String.length (pathname urlObj))
  else
    let hasVideoParam := searchParams_has urlObj "v" in
    let isEmbedPath := includes (pathname urlObj) "/embed/" in
    let isWatchPath := includes (pathname urlObj) "/watch" in
    Ok (hasVideoParam || isEmbedPath || isWatchPath).

Definition isValidYouTubeUrl (url : JSValue) : Outcome bool :=
  try_catch (isValidYouTubeUrl_try url) (fun _ => Ok false).

(** The three object literals of the route, with the members in the
    order the source writes them. *)
Definition CompleteUpdate (artist title genre confidence audioSim lyricsSim : JSValue)
  : JSValue :=
  JObj [("status", JStr "complete");
        ("progress", num 100);
        ("match", JObj [("artist", artist); ("title", title); ("genre", genre)]);
        ("confidence", confidence);
        ("audioSim", audioSim);
        ("lyricsSim", lyricsSim)].

Definition ErrorUpdate (progress error : JSValue) : JSValue :=
  JObj [("status", JStr "error"); ("progress", progress); ("error", error)].

Definition ProgressUpdate (status progress message : JSValue) : JSValue :=
  JObj [("status", status); ("progress", progress); ("message", message)].

(** "Transform backend response to our format": the [update] built from
    one parsed backend event. *)
Definition transform (data : JSValue) : Outcome JSValue :=
  st <- get_prop data "status" ;;
  if strict_eq_str st "complete" then
    m <- get_prop data "match" ;;
    artist <- get_prop m "artist" ;;
    title <- get_prop m "title" ;;
    genre <- get_prop m "genre" ;;
    confidence <- get_prop data "confidence" ;;
    audio_similarity <- get_prop data "audio_similarity" ;;
    lyrics_similarity <- get_prop data "lyrics_similarity" ;;
    Ok (CompleteUpdate artist title genre confidence audio_similarity lyrics_similarity)
  else if strict_eq_str st "error" then
    progress <- get_prop data "progress" ;;
    error <- get_prop data "error" ;;
    message <- get_prop data "message" ;;
    Ok (ErrorUpdate (js_or progress (num 0))
                    (js_or error (js_or message (JStr "Unknown error"))))
  else
    progress <- get_prop data "progress" ;;
    message <- get_prop data "message" ;;
    Ok (ProgressUpdate st progress message).

(** The body of [for (const line of lines)]: the updates enqueued for one
    line.  A parse or transform error is logged and the loop goes on. *)
Definition forward_line (line : string) : list JSValue :=
  let trimmedLine := trim line in
  if negb (truthy (JStr trimmedLine)) || negb (startsWith trimmedLine "data: ")
  then []
  else
    match (data <- JSON_parse (substring_from 6 trimmedLine) ;; transform data) with
    | Ok update => [update]
    | Throw _ => []
    end.

(** [while (true) { ... }]: the updates enqueued while the backend's
    stream is read, and what ended the loop. *)
Fixpoint read_loop (pending : list string) (ending : option Thrown) (buffer : string)
  : list JSValue * option Thrown :=
  match pending with
  | [] => ([], ending)
  | value :: rest =>
      let buffer := (buffer ++ value)%string in
      let '(lines, last) := pop (split_lines buffer) in
      let buffer := match last with Some l => l | None => "" end in
      let '(later, thrown) := read_loop rest ending buffer in
      (flat_map forward_line lines ++ later, thrown)
  end.

(** The [try] block of [start(controller)]: the updates enqueued, and the
    exception that left the block, if any. *)
Definition start_try (fetched : FetchResult) : list JSValue * option Thrown :=
  match fetched with
  | Rejects e => ([], Some e)
  | Resolves r =>
      if negb (ok r) then
        match text r with
        | Throw e => ([], Some e)
        | Ok errorText =>
            ([ErrorUpdate (num 0)
                (JStr ("Backend error: " ++ nat_to_string (status r) ++ " - " ++ errorText))],
             None)
        end
      else
        match body r with
        | None => ([ErrorUpdate (num 0) (JStr "No response body from backend")], None)
        | Some script => read_loop (chunks script) (failure script) ""
        end
  end.

Definition start (fetched : FetchResult) : list JSValue :=
  let '(frames, thrown) := start_try fetched in
  match thrown with
  | None => frames
  | Some e => frames ++ [ErrorUpdate (num 0) (JStr (message_or e "Unknown streaming error"))]
  end.

Definition bad_request (msg : string) : Exchange :=
  {| response := JsonResponse 400 (JObj [("error", JStr msg)]);
     backend_calls := [] |}.

(** The outer [try] block of [POST]. *)
Definition POST_try (request_json : Outcome JSValue) (backend : JSValue -> FetchResult)
  : Outcome Exchange :=
  body <- request_json ;;
  youtubeUrl <- get_prop body "youtubeUrl" ;;
  if negb (truthy youtubeUrl) then Ok (bad_request "YouTube URL is required")
  else
    valid <- isValidYouTubeUrl youtubeUrl ;;
    if negb valid then Ok (bad_request "Invalid YouTube URL format")
    else
      let payload := JObj [("youtube_url", youtubeUrl)] in
      Ok {| response := EventStream (start (backend payload));
            backend_calls := [payload] |}.

Definition POST (request_json : Outcome JSValue) (backend : JSValue -> FetchResult)
  : Exchange :=
  match POST_try request_json backend with
  | Ok exchange => exchange
  | Throw e =>
      {| response :=
           JsonResponse 500
             (JObj [("error", JStr "Failed to process request");
                    ("details", JStr (message_or e "Unknown error"))]);
         backend_calls := [] |}
  end.

End Route.

(** The events of the stream a response carries. *)
Definition events (r : HttpResponse) : list JSValue :=
  match r with
  | EventStream frames => frames
  | JsonResponse _ _ => []
  end.

Definition has_status (s : string) (update : JSValue) : bool :=
  match wire_field update "status" with
  | Some v => strict_eq_str v s
  | None => false
  end.

Definition is_terminal (update : JSValue) : bool :=
  has_status "complete" update || has_status "error" update.

End MatchRoute.

(* ================================================================= *)
(** ** The songs route (second part of app/api/match/route.ts) *)

Module SongsRoute.
Import JS.
Import MatchRoute.

Section Route.

Variable JSON_parse : string -> Outcome JSValue.

(** The [try] block of [GET]; [file] is what
    [readFileSync(filePath, 'utf-8')] returns or throws. *)
Definition GET_try (file : Outcome string) : Outcome HttpResponse :=
  fileContent <- file ;;
  songs <- JSON_parse fileContent ;;
  count <- get_length songs ;;
  Ok (JsonResponse 200 (JObj [("songs", songs); ("count", count)])).

Definition GET (file : Outcome string) : HttpResponse :=
  match GET_try file with
  | Ok r => r
  | Throw (ErrorObject message) =>
      if includes message "ENOENT" then
        JsonResponse 404
          (JObj [("error", JStr "Songs file not found");
                 ("details", JStr "studio_songs.json could not be located")])
      else
        JsonResponse 500
          (JObj [("error", JStr "Failed to load songs"); ("details", JStr message)])
  | Throw (NonError _) =>
      JsonResponse 500
        (JObj [("error", JStr "Failed to load songs"); ("details", JStr "Unknown error")])
  end.

End Route.

End SongsRoute.

(* ================================================================= *)
(** ** app/hooks/useMatchStream.ts *)

Module Hook.
Import JS.
Import MatchRoute.

(** The three [useState] cells of the hook. *)
Record HookState : Type := {
  currentUpdate : JSValue;       (* [StreamUpdate | null] *)
  isStreaming : bool;
  error : JSValue                (* [string | null] *)
}.

(** One call of [startMatch]: the hook's state, whether [reader.cancel()]
    has been called, and (for the statements below) the updates parsed
    from the stream and handed to [setCurrentUpdate] so far, oldest
    first. *)
Record Run : Type := {
  hook : HookState;
  cancelled : bool;
  processed : list JSValue
}.

Definition setCurrentUpdate (u : JSValue) (r : Run) : Run :=
  {| hook := {| currentUpdate := u;
                isStreaming := isStreaming (hook r);
                error := error (hook r) |};
     cancelled := cancelled r;
     processed := processed r ++ [u] |}.

Definition setIsStreaming (b : bool) (r : Run) : Run :=
  {| hook := {| currentUpdate := currentUpdate (hook r);
                isStreaming := b;
                error := error (hook r) |};
     cancelled := cancelled r;
     processed := processed r |}.

Definition setError (e : JSValue) (r : Run) : Run :=
  {| hook := {| currentUpdate := currentUpdate (hook r);
                isStreaming := isStreaming (hook r);
                error := e |};
     cancelled := cancelled r;
     processed := processed r |}.

Definition cancel (r : Run) : Run :=
  {| hook := hook r; cancelled := true; processed := processed r |}.

(** [stopMatch] *)
Definition stopMatch (s : HookState) : HookState :=
  {| currentUpdate := JNull; isStreaming := false; error := JNull |}.

(** What [fetch('/api/match', ...)] gives the hook. *)
Inductive Fetched : Type :=
| FetchRejects (e : Thrown)
| NotOk (code : nat) (errorData : Outcome JSValue)   (* [await response.json()] *)
| NoBody
| Body (script : ReadScript).

Section StartMatch.

Variable JSON_parse : string -> Outcome JSValue.
(** The conversion to a string [new Error(v)] applies to its argument. *)
Variable ToString : JSValue -> string.

(** The [try] block inside the [for] loop, for one [data: ] line; the
    boolean tells whether the loop is left by [break]. *)
Definition on_data (jsonData : string) (r : Run) : Run * bool :=
  match JSON_parse jsonData with
  | Throw _ => (r, false)
  | Ok update =>
      let r := setCurrentUpdate update r in
      match get_prop update "status" with
      | Throw _ => (r, false)
      | Ok st =>
          if strict_eq_str st "complete" || strict_eq_str st "error" then
            let r := setIsStreaming false r in
            if strict_eq_str st "error" then
              match get_prop update "error" with
              | Throw _ => (r, false)
              | Ok e => (cancel (setError e r), true)
              end
            else (cancel r, true)
          else (r, false)
      end
  end.

Fixpoint for_lines (lines : list string) (r : Run) : Run * bool :=
  match lines with
  | [] => (r, false)
  | line :: rest =>
      let trimmedLine := trim line in
      if negb (truthy (JStr trimmedLine)) || negb (startsWith trimmedLine "data: ")
      then for_lines rest r
      else
        let '(r', stop) := on_data (substring_from 6 trimmedLine) r in
        if stop then (r', true) else for_lines rest r'
  end.

(** [while (true) { ... }].  Once the reader is cancelled its stream is
    closed and [read()] resolves with [done]. *)
Fixpoint read_loop (pending : list string) (ending : option Thrown) (buffer : string)
                   (r : Run) : Run * option Thrown :=
  if cancelled r then (setIsStreaming false r, None)
  else
    match pending with
    | [] =>
        match ending with
        | None => (setIsStreaming false r, None)
        | Some e => (r, Some e)
        end
    | value :: rest =>
        let buffer := (buffer ++ value)%string in
        let '(lines, last) := pop (split_lines buffer) in
        let buffer := match last with Some l => l | None => "" end in
        read_loop rest ending buffer (fst (for_lines lines r))
    end.

(** The [try] block of [startMatch]. *)
Definition startMatch_try (fetched : Fetched) (r : Run) : Run * option Thrown :=
  match fetched with
  | FetchRejects e => (r, Some e)
  | NotOk code errorData =>
      match (d <- errorData ;; get_prop d "error") with
      | Throw e => (r, Some e)
      | Ok e =>
          (r, Some (ErrorObject
                      (ToString (js_or e (JStr ("HTTP error! status: " ++ nat_to_string code))))))
      end
  | NoBody => (r, Some (ErrorObject "No response body"))
  | Body script => read_loop (chunks script) (failure script) "" r
  end.

Definition startMatch (fetched : Fetched) : Run :=
  let r := {| hook := {| currentUpdate := JNull; isStreaming := true; error := JNull |};
              cancelled := false;
              processed := [] |} in
  let '(r, thrown) := startMatch_try fetched r in
  match thrown with
  | None => r
  | Some err => setIsStreaming false (setError (JStr (message_or err "Unknown error")) r)
  end.

End StartMatch.

(** [update.status === 'complete' || update.status === 'error'] *)
Definition terminal (update : JSValue) : bool :=
  match get_prop update "status" with
  | Ok st => strict_eq_str st "complete" || strict_eq_str st "error"
  | Throw _ => false
  end.

(** [update.status === 'error'] *)
Definition is_error (update : JSValue) : bool :=
  match get_prop update "status" with
  | Ok st => strict_eq_str st "error"
  | Throw _ => false
  end.

(** No terminal event has been processed and the reader is open. *)
Definition reading (r : Run) : Prop :=
  cancelled r = false /\ Forall (fun u => terminal u = false) (processed r).

(** A terminal event has been processed: it is the last one processed
    and the only terminal one, it is the current update, streaming is
    off, the reader is cancelled, and the error of an error event is the
    hook's error. *)
Definition stopped (r : Run) : Prop :=
  cancelled r = true /\
  isStreaming (hook r) = false /\
  exists (pre : list JSValue) (u : JSValue),
    processed r = pre ++ [u] /\
    Forall (fun v => terminal v = false) pre /\
    terminal u = true /\
    currentUpdate (hook r) = u /\
    (is_error u = true -> get_prop u "error" = Ok (error (hook r))).

End Hook.

(* ================================================================= *)
(** ** app/api/types.ts *)

Module Types.
Import JS.

Inductive ConfidenceLevel : Type := HIGH | MODERATE | LOW | VERY_LOW.

(** The string a [ConfidenceLevel] is at run time. *)
Definition confidence_value (c : ConfidenceLevel) : JSValue :=
  match c with
  | HIGH => JStr "HIGH"
  | MODERATE => JStr "MODERATE"
  | LOW => JStr "LOW"
  | VERY_LOW => JStr "VERY_LOW"
  end.

End Types.

(* ================================================================= *)
(** ** app/page.tsx *)

Module Page.
Import JS.
Import Types.

Inductive ProcessingStage : Type :=
| idle | downloading | fingerprinting | transcribing | matching | complete | error.

(** The page's [MatchResult]; [matched] is its field [match]. *)
Record MatchResult : Type := {
  matched : JSValue;
  confidence : JSValue;
  audioSim : JSValue;
  lyricsSim : JSValue
}.

Record PageState : Type := {
  processingStage : ProcessingStage;
  result : option MatchResult;
  pageError : option string
}.

Definition setProcessingStage (st : ProcessingStage) (s : PageState) : PageState :=
  {| processingStage := st; result := result s; pageError := pageError s |}.

Definition setResult (r : MatchResult) (s : PageState) : PageState :=
  {| processingStage := processingStage s; result := Some r; pageError := pageError s |}.

(** The [try] block of [handleAnalyze]'s line loop for one parsed event.
    Whatever it throws, also the [Error] built for an [error] event, is
    caught by the [catch (parseErr)] around it and logged. *)
Definition on_data (data : JSValue) (s : PageState) : PageState :=
  match get_prop data "status" with
  | Throw _ => s
  | Ok st =>
      if strict_eq_str st "downloading" then setProcessingStage downloading s
      else if strict_eq_str st "fingerprinting" then setProcessingStage fingerprinting s
      else if strict_eq_str st "transcribing" then setProcessingStage transcribing s
      else if strict_eq_str st "matching" then setProcessingStage matching s
      else if strict_eq_str st "complete" then
        match (m <- get_prop data "match" ;;
               c <- get_prop data "confidence" ;;
               a <- get_prop data "audioSim" ;;
               l <- get_prop data "lyricsSim" ;;
               Ok {| matched := m; confidence := c; audioSim := a; lyricsSim := l |}) with
        | Ok r => setProcessingStage complete (setResult r s)
        | Throw _ => s
        end
      else s
  end.

(** [v?.k] *)
Definition optional_chain (v : JSValue) (k : string) : JSValue :=
  match get_prop v k with
  | Ok x => x
  | Throw _ => JUndefined
  end.

(** The "Results Section" of the page: not rendered, or one of its three
    panels with the values interpolated into it. *)
Inductive ResultsSection : Type :=
| NotRendered
| MatchFound (title artist confidence audioSim lyricsSim : JSValue)
| NeedsReview (title artist confidence audioSim lyricsSim : JSValue)
| NoMatchFound.

Definition results_section (s : PageState) : ResultsSection :=
  match result s, processingStage s with
  | Some r, complete =>
      if strict_eq_str (confidence r) "HIGH" || strict_eq_str (confidence r) "MODERATE" then
        MatchFound (optional_chain (matched r) "title") (optional_chain (matched r) "artist")
                   (confidence r) (audioSim r) (lyricsSim r)
      else if strict_eq_str (confidence r) "LOW" then
        NeedsReview (optional_chain (matched r) "title") (optional_chain (matched r) "artist")
                    (confidence r) (audioSim r) (lyricsSim r)
      else NoMatchFound
  | _, _ => NotRendered
  end.

(** The heading of a panel and the values of the result it displays. *)
Definition heading (v : ResultsSection) : option string :=
  match v with
  | NotRendered => None
  | MatchFound _ _ _ _ _ => Some "Match Found!"
  | NeedsReview _ _ _ _ _ => Some "Needs Review"
  | NoMatchFound => Some "No Match Found"
  end.

Definition displayed (v : ResultsSection) : list JSValue :=
  match v with
  | MatchFound t a c x y | NeedsReview t a c x y => [t; a; c; x; y]
  | NotRendered | NoMatchFound => []
  end.

End Page.

(* ================================================================= *)
(** ** The confidence classifier of the backend *)

Module Matcher.
Import Types.

(** Modelled from the spec: the classifier of [backend/matcher_v7.py] is
    not among the sources.  The tier is read off the gap table from the
    top: at least 0.20 is HIGH, else at least 0.10 is MODERATE, else at
    least 0.05 is LOW, else VERY_LOW.  The gap is a rational. *)
Definition classify_confidence (gap : Q) : ConfidenceLevel :=
  if Qle_bool 0.20 gap then HIGH
  else if Qle_bool 0.10 gap then MODERATE
  else if Qle_bool 0.05 gap then LOW
  else VERY_LOW.

(** The tiers from the weakest to the strongest. *)
Definition tier_rank (c : ConfidenceLevel) : nat :=
  match c with
  | VERY_LOW => 0
  | LOW => 1
  | MODERATE => 2
  | HIGH => 3
  end.

End Matcher.

(* ================================================================= *)
(** ** Stand-ins for the platform functions, used by the examples *)

Module Samples.
Import JS.
Import MatchRoute.

(** [JSON.parse] on the texts of [table]: each listed text parses to the
    value beside it; any other text is a syntax error. *)
Fixpoint JSON_parse_of (table : list (string * JSValue)) (text : string) : Outcome JSValue :=
  match table with
  | [] => Throw (ErrorObject "Unexpected token")
  | (t, v) :: rest => if String.eqb text t then Ok v else JSON_parse_of rest text
  end.

(** [new URL] on the strings of [table]; any other argument is rejected
    as an invalid URL. *)
Fixpoint new_URL_of (table : list (string * URL)) (url : JSValue) : Outcome URL :=
  match table with
  | [] => Throw (ErrorObject "Invalid URL")
  | (t, u) :: rest => if strict_eq_str url t then Ok u else new_URL_of rest url
  end.

(** [String(v)] on strings, [undefined], [null] and booleans, the only
    values converted in the examples. *)
Definition ToString_simple (v : JSValue) : string :=
  match v with
  | JStr s => s
  | JUndefined => "undefined"
  | JNull => "null"
  | JBool true => "true"
  | JBool false => "false"
  | _ => "[object Object]"
  end.

Definition quote : string := String "034"%char "".

(** The JSON text of a value built from objects, arrays, strings that
    need no escape, integers, booleans and [null]. *)
Fixpoint json_text (v : JSValue) : string :=
  (match v with
  | JUndefined => "undefined"
  | JNull => "null"
  | JBool true => "true"
  | JBool false => "false"
  | JNum q => NilZero.string_of_int (Z.to_int (Qnum q))
  | JStr s => quote ++ s ++ quote
  | JArr items =>
      "[" ++ (fix members (l : list JSValue) : string :=
                match l with
                | [] => ""
                | x :: [] => json_text x
                | x :: r => json_text x ++ "," ++ members r
                end) items ++ "]"
  | JObj fs =>
      "{" ++ (fix members (l : list (string * JSValue)) : string :=
                match l with
                | [] => ""
                | (k, x) :: [] => quote ++ k ++ quote ++ ":" ++ json_text x
                | (k, x) :: r => quote ++ k ++ quote ++ ":" ++ json_text x ++ "," ++ members r
                end) fs ++ "}"
  end)%string.

(** [JSON.parse] restricted to the texts of the listed values. *)
Definition JSON_parse_texts (values : list JSValue) : string -> Outcome JSValue :=
  JSON_parse_of (map (fun v => (json_text v, v)) values).

(** One SSE event carrying [v], as the backend writes it: the [data: ]
    line and the blank line that ends the event. *)
Definition data_line (v : JSValue) : string :=
  ("data: " ++ json_text v ++ newline ++ newline)%string.

Definition watch_url : string := "https://www.youtube.com/watch?v=dQw4w9WgXcQ".

Definition sample_new_URL : JSValue -> Outcome URL :=
  new_URL_of
    [(watch_url,
      {| hostname := "www.youtube.com"; pathname := "/watch";
         searchParams := [("v", "dQw4w9WgXcQ")] |});
     ("https://example.com/watch?v=dQw4w9WgXcQ",
      {| hostname := "example.com"; pathname := "/watch";
         searchParams := [("v", "dQw4w9WgXcQ")] |})].

Definition sample_request : Outcome JSValue :=
  Ok (JObj [("youtubeUrl", JStr watch_url)]).

(** A backend that answers 200 and streams [sent], one chunk per event. *)
Definition backend_streaming (sent : list JSValue) (payload : JSValue) : FetchResult :=
  Resolves {| status := 200;
              text := Ok "";
              body := Some {| chunks := map data_line sent; failure := None |} |}.

(** The exchange of the route with that backend, for the sample request. *)
Definition route_exchange (sent : list JSValue) : Exchange :=
  POST sample_new_URL (JSON_parse_texts sent) sample_request (backend_streaming sent).

(** The hook reading a 200 response of the route that streams [sent]. *)
Definition hook_run (sent : list JSValue) : Hook.Run :=
  Hook.startMatch (JSON_parse_texts sent) ToString_simple
                  (Hook.Body {| chunks := map data_line sent; failure := None |}).

(** The page while the stream is read, before any result. *)
Definition page_waiting : Page.PageState :=
  {| Page.processingStage := Page.downloading;
     Page.result := None;
     Page.pageError := None |}.

(** A songs file with two entries. *)
Definition songs_file : JSValue :=
  JArr [JObj [("artist", JStr "Oasis"); ("title", JStr "Wonderwall");
              ("genre", JStr "Britpop")];
        JObj [("artist", JStr "Nirvana"); ("title", JStr "Lithium");
              ("genre", JStr "Grunge")]].

(** Two updates as the route writes them. *)
Definition route_error_update : JSValue :=
  ErrorUpdate (num 25) (JStr "Download failed").

Definition route_downloading_update : JSValue :=
  ProgressUpdate (JStr "downloading") (num 0) (JStr "Downloading audio...").

Definition backend_downloading : JSValue :=
  JObj [("status", JStr "downloading"); ("message", JStr "Downloading audio...");
        ("progress", num 0)].

Definition backend_queued : JSValue :=
  JObj [("status", JStr "queued"); ("progress", num 150)].

Definition backend_error : JSValue :=
  JObj [("status", JStr "error"); ("message", JStr "Download failed");
        ("progress", num 25)].

(** The complete event in the shape backend/README.md documents: the
    match is a string inside a [result] object. *)
Definition backend_complete_nested : JSValue :=
  JObj [("status", JStr "complete");
        ("message", JStr "Processing complete");
        ("progress", num 100);
        ("result", JObj [("match", JStr "Oasis - Wonderwall");
                         ("confidence", JStr "HIGH");
                         ("combinedScore", num 1);
                         ("audioSim", num 1);
                         ("lyricsSim", num 1);
                         ("gap", num 1)])].

Definition backend_complete (confidence : string) : JSValue :=
  JObj [("status", JStr "complete");
        ("message", JStr "Processing complete");
        ("progress", num 100);
        ("match", JObj [("artist", JStr "Oasis"); ("title", JStr "Wonderwall");
                        ("genre", JStr "Britpop")]);
        ("confidence", JStr confidence);
        ("audio_similarity", num 1);
        ("lyrics_similarity", num 1);
        ("combinedScore", num 1);
        ("gap", num 1);
        ("top5", JArr [JObj [("artist", JStr "Oasis"); ("title", JStr "Wonderwall");
                             ("audioSim", num 1); ("lyricsSim", num 1);
                             ("combinedScore", num 1)];
                       JObj [("artist", JStr "Nirvana"); ("title", JStr "Lithium");
                             ("audioSim", num 0); ("lyricsSim", num 0);
                             ("combinedScore", num 0)]])].

End Samples.

(* ================================================================= *)
(** ** Predicates used in the statements *)

Module Statements.
Import JS.
Import MatchRoute.

Section Route.

Variable JSON_parse : string -> Outcome JSValue.

(** [update] is the transform of an event the backend sent: some text
    parses to [data] and [transform data] is [update]. *)
Definition forwarded_from (data update : JSValue) : Prop :=
  (exists text, JSON_parse text = Ok data) /\ transform data = Ok update.

(** [update] is an error the route raises itself. *)
Definition raised_by_route (update : JSValue) : Prop :=
  exists msg, update = ErrorUpdate (num 0) (JStr msg).

End Route.

(** The text the reader has delivered. *)
Definition received (chunks : list string) : string :=
  fold_right String.append "" chunks.

Definition no_newline (s : string) : Prop := split_lines s = [s].


(** The shape the wire contract gives a non-terminal event,
    [{status: downloading|fingerprinting|transcribing|matching,
      progress: integer 0-100, message?: string}], read off the JSON text
    of an update. *)
Definition stage_names : list string :=
  ["downloading"; "fingerprinting"; "transcribing"; "matching"].

Definition is_stage_status (v : option JSValue) : bool :=
  match v with
  | Some (JStr s) => existsb (String.eqb s) stage_names
  | _ => false
  end.

Definition is_percentage (v : option JSValue) : bool :=
  match v with
  | Some (JNum q) =>
      ((Qnum q mod Zpos (Qden q) =? 0)%Z
       && (0 <=? Qnum q)%Z
       && (Qnum q <=? 100 * Zpos (Qden q))%Z)%bool
  | _ => false
  end.

Definition is_optional_string (v : option JSValue) : bool :=
  match v with
  | None => true
  | Some (JStr _) => true
  | Some _ => false
  end.

Definition well_formed_progress (update : JSValue) : bool :=
  is_stage_status (wire_field update "status")
  && is_percentage (wire_field update "progress")
  && is_optional_string (wire_field update "message").

(** What a property read gives on the JSON text of the value read. *)
Definition on_wire (x : JSValue) : option JSValue :=
  match x with
  | JUndefined => None
  | _ => Some (wire x)
  end.

(** The request carries a URL the route accepts: [request.json()]
    resolves, [body.youtubeUrl] can be read and is truthy, and
    [isValidYouTubeUrl] returns [true] for it. *)
Definition carries_valid_url (new_URL : JSValue -> Outcome URL)
           (request_json : Outcome JSValue) : bool :=
  match request_json with
  | Throw _ => false
  | Ok body =>
      match get_prop body "youtubeUrl" with
      | Throw _ => false
      | Ok youtubeUrl =>
          truthy youtubeUrl &&
          match isValidYouTubeUrl new_URL youtubeUrl with
          | Ok valid => valid
          | Throw _ => false
          end
      end
  end.

(** [request.json()] resolves with a value on which [body.youtubeUrl] can
    be read: any JSON value but [null]. *)
Definition readable_body (request_json : Outcome JSValue) : bool :=
  match request_json with
  | Throw _ => false
  | Ok body =>
      match get_prop body "youtubeUrl" with
      | Throw _ => false
      | Ok _ => true
      end
  end.

End Statements.

(* ================================================================= *)
(** ** app/hooks/useSongs.ts *)

Module SongsHook.
Import JS.

(** The three [useState] cells of the hook. *)
Record SongsState : Type := {
  songs : JSValue;               (* [Song[]] *)
  loading : bool;
  error : JSValue                (* [string | null] *)
}.

Definition initial : SongsState :=
  {| songs := JArr []; loading := true; error := JNull |}.

Definition setSongs (v : JSValue) (s : SongsState) : SongsState :=
  {| songs := v; loading := loading s; error := error s |}.

Definition setLoading (b : bool) (s : SongsState) : SongsState :=
  {| songs := songs s; loading := b; error := error s |}.

Definition setError (e : JSValue) (s : SongsState) : SongsState :=
  {| songs := songs s; loading := loading s; error := e |}.

(** What [fetch('/api/songs')] gives the hook: a rejection, or a response
    with its status and what [response.json()] resolves or rejects
    with. *)
Inductive Fetched : Type :=
| FetchRejects (e : Thrown)
| Response (code : nat) (json : Outcome JSValue).

(** [response.ok] *)
Definition ok (code : nat) : bool := (200 <=? code) && (code <=? 299).

Section FetchSongs.

(** The conversion to a string [new Error(v)] applies to its argument. *)
Variable ToString : JSValue -> string.

(** The [try] block of [fetchSongs]. *)
Definition fetchSongs_try (fetched : Fetched) (s : SongsState) : Outcome SongsState :=
  match fetched with
  | FetchRejects e => Throw e
  | Response code json =>
      if negb (ok code) then
        errorData <- json ;;
        e <- get_prop errorData "error" ;;
        Throw (ErrorObject
                 (ToString (js_or e (JStr ("HTTP error! status: " ++ nat_to_string code)))))
      else
        data <- json ;;
        v <- get_prop data "songs" ;;
        Ok (setSongs v s)
  end.

Definition fetchSongs (fetched : Fetched) (s : SongsState) : SongsState :=
  let s := setError JNull (setLoading true s) in
  setLoading false
    match fetchSongs_try fetched s with
    | Ok s' => s'
    | Throw err =>
        setSongs (JArr []) (setError (JStr (message_or err "Failed to load songs")) s)
    end.

End FetchSongs.

End SongsHook.

(* ================================================================= *)
(** ** app/page.tsx: the URL field, the analysis and the song list *)

Module HomePage.
Import JS.
Import MatchRoute.
Import Page.

(* ----------------------------------------------------------------- *)
(** *** The regular expression of [validateYouTubeUrl] *)

Inductive regex : Type :=
| Never
| Empty
| Class (p : ascii -> bool)
| Seq (r1 r2 : regex)
| Alt (r1 r2 : regex)
| Star (r : regex).

Definition Lit (c : ascii) : regex := Class (Ascii.eqb c).

Fixpoint Str (s : string) : regex :=
  match s with
  | EmptyString => Empty
  | String c t => Seq (Lit c) (Str t)
  end.

(** [r?] and [r+] *)
Definition Opt (r : regex) : regex := Alt r Empty.
Definition Plus (r : regex) : regex := Seq r (Star r).

Fixpoint nullable (r : regex) : bool :=
  match r with
  | Never => false
  | Empty => true
  | Class _ => false
  | Seq r1 r2 => nullable r1 && nullable r2
  | Alt r1 r2 => nullable r1 || nullable r2
  | Star _ => true
  end.

(** The derivative of [r] by the character [c]. *)
Fixpoint deriv (c : ascii) (r : regex) : regex :=
  match r with
  | Never => Never
  | Empty => Never
  | Class p => if p c then Empty else Never
  | Seq r1 r2 =>
      if nullable r1 then Alt (Seq (deriv c r1) r2) (deriv c r2)
      else Seq (deriv c r1) r2
  | Alt r1 r2 => Alt (deriv c r1) (deriv c r2)
  | Star r1 => Seq (deriv c r1) (Star r1)
  end.

(** [/^r$/.test(s)]: the whole of [s] is a word of [r]. *)
Fixpoint test (r : regex) (s : string) : bool :=
  match s with
  | EmptyString => nullable r
  | String c t => test (deriv c r) t
  end.

(** [\w] *)
Definition is_word (c : ascii) : bool :=
  let n := nat_of_ascii c in
  ((48 <=? n) && (n <=? 57)) || ((65 <=? n) && (n <=? 90))
  || ((97 <=? n) && (n <=? 122)) || (n =? 95).

Definition word_or (x : ascii) (c : ascii) : bool := is_word c || Ascii.eqb c x.

(** [(youtube\.com\/watch\?v=|youtu\.be\/|youtube\.com\/shorts\/)] *)
Definition markers : regex :=
  Alt (Str "youtube.com/watch?v=") (Alt (Str "youtu.be/") (Str "youtube.com/shorts/")).

(** [youtubeRegex], group by group: an optional [https?:\/\/], an
    optional [www\.], one of the three markers, [[\w-]+], and any number
    of groups made of [&] and a possibly empty run of [[\w=]]; the
    expression is anchored by [^] and [$]. *)
Definition youtubeRegex : regex :=
  Seq (Opt (Seq (Str "http") (Seq (Opt (Lit "s"%char)) (Str "://"))))
      (Seq (Opt (Str "www."))
           (Seq markers
                (Seq (Plus (Class (word_or "-"%char)))
                     (Star (Seq (Lit "&"%char) (Star (Class (word_or "="%char)))))))).

(** The words of a regular expression. *)
Inductive Matches : regex -> string -> Prop :=
| MEmpty : Matches Empty ""
| MClass p c : p c = true -> Matches (Class p) (String c "")
| MSeq r1 r2 s1 s2 : Matches r1 s1 -> Matches r2 s2 -> Matches (Seq r1 r2) (s1 ++ s2)
| MAltL r1 r2 s : Matches r1 s -> Matches (Alt r1 r2) s
| MAltR r1 r2 s : Matches r2 s -> Matches (Alt r1 r2) s
| MStarNil r : Matches (Star r) ""
| MStarCons r s1 s2 : Matches r s1 -> Matches (Star r) s2 -> Matches (Star r) (s1 ++ s2).

(* ----------------------------------------------------------------- *)
(** *** The state of the page *)

(** The state cells of [HomePage] the handlers below use; [view] holds
    [processingStage], [result] and [error]. *)
Record Home : Type := {
  view : PageState;
  youtubeUrl : string;
  urlError : option string
}.

Definition setUrlError (e : option string) (h : Home) : Home :=
  {| view := view h; youtubeUrl := youtubeUrl h; urlError := e |}.

Definition setView (v : PageState) (h : Home) : Home :=
  {| view := v; youtubeUrl := youtubeUrl h; urlError := urlError h |}.

Definition setError (e : option string) (s : PageState) : PageState :=
  {| processingStage := processingStage s; result := result s; pageError := e |}.

Definition clearResult (s : PageState) : PageState :=
  {| processingStage := processingStage s; result := None; pageError := pageError s |}.

(** [validateYouTubeUrl] *)
Definition validateYouTubeUrl (url : string) (h : Home) : bool * Home :=
  if negb (truthy (JStr url)) then (false, setUrlError (Some "Please enter a YouTube URL") h)
  else if negb (test youtubeRegex url)
  then (false, setUrlError (Some "Please enter a valid YouTube URL") h)
  else (true, setUrlError None h).

Section HandleAnalyze.

Variable JSON_parse : string -> Outcome JSValue.

(** The body of [for (const line of lines)]. *)
Definition on_line (line : string) (s : PageState) : PageState :=
  if negb (truthy (JStr (trim line))) || negb (startsWith line "data: ") then s
  else
    match JSON_parse (substring_from 6 line) with
    | Ok data => on_data data s
    | Throw _ => s
    end.

Definition for_lines (lines : list string) (s : PageState) : PageState :=
  fold_left (fun s line => on_line line s) lines s.

(** [while (true) { ... }] *)
Fixpoint read_loop (pending : list string) (ending : option Thrown) (buffer : string)
                   (s : PageState) : PageState * option Thrown :=
  match pending with
  | [] => (s, ending)
  | value :: rest =>
      let buffer := (buffer ++ value)%string in
      let '(lines, last) := pop (split_lines buffer) in
      let buffer := match last with Some l => l | None => "" end in
      read_loop rest ending buffer (for_lines lines s)
  end.

(** The [try] block of [handleAnalyze]. *)
Definition handleAnalyze_try (fetched : FetchResult) (s : PageState)
  : PageState * option Thrown :=
  match fetched with
  | Rejects e => (s, Some e)
  | Resolves r =>
      if negb (ok r) then
        (s, Some (ErrorObject ("HTTP error! status: " ++ nat_to_string (status r))))
      else
        match body r with
        | None => (s, Some (ErrorObject "No response body"))
        | Some script => read_loop (chunks script) (failure script) "" s
        end
  end.

(** [handleAnalyze]; [fetch] is given the JSON of the request body. *)
Definition handleAnalyze (fetch : JSValue -> FetchResult) (h : Home) : Home :=
  let '(valid, h) := validateYouTubeUrl (youtubeUrl h) h in
  if negb valid then h
  else
    let s := setProcessingStage downloading (clearResult (setError None (view h))) in
    let '(s, thrown) :=
      handleAnalyze_try (fetch (JObj [("youtubeUrl", JStr (youtubeUrl h))])) s in
    match thrown with
    | None => setView s h
    | Some err =>
        setView (setProcessingStage error
                   (setError (Some (message_or err "Failed to analyze video. Please try again."))
                             s)) h
    end.

End HandleAnalyze.

(* ----------------------------------------------------------------- *)
(** *** The song list *)

Record Song : Type := {
  artist : string;
  title : string;
  genre : string
}.

(** The names a property read finds on every object through
    [Object.prototype]. *)
Definition object_prototype_names : list string :=
  ["constructor"; "hasOwnProperty"; "isPrototypeOf"; "propertyIsEnumerable";
   "toLocaleString"; "toString"; "valueOf"; "__proto__";
   "__defineGetter__"; "__defineSetter__"; "__lookupGetter__"; "__lookupSetter__"].

Definition inherited (k : string) : bool := existsb (String.eqb k) object_prototype_names.

(** The own properties of the accumulator, in the order they were
    created. *)
Definition Groups : Type := list (string * list Song).

Fixpoint own (k : string) (acc : Groups) : option (list Song) :=
  match acc with
  | [] => None
  | (k', v) :: rest => if String.eqb k k' then Some v else own k rest
  end.

(** [acc[genre].push(song)] on an own property. *)
Fixpoint push (k : string) (song : Song) (acc : Groups) : Groups :=
  match acc with
  | [] => []
  | (k', v) :: rest =>
      if String.eqb k k' then (k', v ++ [song]) :: rest else (k', v) :: push k song rest
  end.

(** [song.genre || 'Unknown'] *)
Definition genre_of (song : Song) : string :=
  if truthy (JStr (genre song)) then genre song else "Unknown".

(** The reducer of [groupedSongs].  A genre that names a property of
    [Object.prototype] is found there by [acc[genre]]: no array is
    created and [push] is not a function. *)
Definition group_step (acc : Groups) (song : Song) : Outcome Groups :=
  let genre := genre_of song in
  match own genre acc with
  | Some _ => Ok (push genre song acc)
  | None =>
      if inherited genre then Throw (ErrorObject "acc[genre].push is not a function")
      else Ok (push genre song (acc ++ [(genre, [])]))
  end.

Fixpoint reduce (songs : list Song) (acc : Groups) : Outcome Groups :=
  match songs with
  | [] => Ok acc
  | song :: rest => acc' <- group_step acc song ;; reduce rest acc'
  end.

Definition groupedSongs (studioSongs : list Song) : Outcome Groups := reduce studioSongs [].

Definition genreOrder : list string :=
  ["Modern Pop"; "Alternative R&B"; "R&B Neo-Soul"; "Indie Alternative"; "Indie Rock";
   "Indie Folk-Rock"; "Indie Post-Punk"; "Emo Post-Hardcore"; "90s Alt Rock";
   "Experimental Electronic"; "Unknown"].

(** "Songs by Genre": for each name of [genreOrder], in order, the block
    rendered for it, if any: the genre and its songs.  None of these
    names is inherited, so [groupedSongs[genre]] is an own property or
    [undefined]. *)
Definition songs_by_genre (groups : Groups) : list (string * list Song) :=
  flat_map (fun genre =>
              match own genre groups with
              | None => []
              | Some songs => if List.length songs =? 0 then [] else [(genre, songs)]
              end) genreOrder.

End HomePage.

(* ================================================================= *)
(** ** app/components/MatchExample.tsx *)

Module MatchExample.
Import JS.

(** [currentUpdate?.status] *)
Definition status_of (currentUpdate : JSValue) : JSValue :=
  match get_prop currentUpdate "status" with
  | Ok st => st
  | Throw _ => JUndefined
  end.

(** [getProgressColor], from the hook's [error] and [currentUpdate]. *)
Definition getProgressColor (error currentUpdate : JSValue) : string :=
  if truthy error || strict_eq_str (status_of currentUpdate) "error" then "bg-red-500"
  else if strict_eq_str (status_of currentUpdate) "complete" then "bg-green-500"
  else "bg-blue-500".

(** [getConfidenceColor] *)
Definition getConfidenceColor (confidence : JSValue) : string :=
  if strict_eq_str confidence "HIGH" then "text-green-600"
  else if strict_eq_str confidence "MODERATE" then "text-yellow-600"
  else if strict_eq_str confidence "LOW" then "text-orange-600"
  else if strict_eq_str confidence "VERY_LOW" then "text-red-600"
  else "text-gray-600".

(** [handleSubmit]: the URL [startMatch] is called with, if it is
    called. *)
Definition handleSubmit (youtubeUrl : string) : option string :=
  if truthy (JStr (trim youtubeUrl)) then Some youtubeUrl else None.

End MatchExample.

(* ================================================================= *)
(** ** From a route to its client *)

Module Transport.
Import JS.
Import MatchRoute.

Section Frames.

Variable JSON_stringify : JSValue -> string.

(** The text enqueued for one update: [`data: ${JSON.stringify(update)}\n\n`]. *)
Definition sse_frame (update : JSValue) : string :=
  ("data: " ++ JSON_stringify update ++ newline ++ newline)%string.

(** The text of a whole stream. *)
Definition sse_text (frames : list JSValue) : string :=
  fold_right String.append "" (map sse_frame frames).

End Frames.

(** What the songs hook's [fetch] resolves to for a response of
    [NextResponse.json]: its status, and its body read back by
    [response.json()]. *)
Definition songs_fetch (r : HttpResponse) : option SongsHook.Fetched :=
  match r with
  | JsonResponse code payload => Some (SongsHook.Response code (Ok (wire payload)))
  | EventStream _ => None
  end.

(** What the match hook's [fetch] resolves to for a JSON response whose
    status is not a 2xx. *)
Definition rejected_fetch (r : HttpResponse) : option Hook.Fetched :=
  match r with
  | JsonResponse code payload =>
      if (200 <=? code) && (code <=? 299) then None
      else Some (Hook.NotOk code (Ok (wire payload)))
  | EventStream _ => None
  end.

End Transport.

(* ================================================================= *)
(** ** Further predicates used in the statements *)

Module Readings.
Import JS.
Import MatchRoute.

Section Lines.

Variable JSON_parse : string -> Outcome JSValue.

(** The update the hook parses from one line, if any. *)
Definition parsed_update (line : string) : list JSValue :=
  let trimmedLine := trim line in
  if negb (truthy (JStr trimmedLine)) || negb (startsWith trimmedLine "data: ") then []
  else
    match JSON_parse (substring_from 6 trimmedLine) with
    | Ok update => [update]
    | Throw _ => []
    end.

Definition parsed_updates (text : string) : list JSValue :=
  flat_map parsed_update (complete_lines text).

End Lines.

(** The updates of a list up to its first terminal one, included. *)
Fixpoint up_to_terminal (l : list JSValue) : list JSValue :=
  match l with
  | [] => []
  | u :: rest => if Hook.terminal u then [u] else u :: up_to_terminal rest
  end.

Definition last_update (l : list JSValue) : JSValue := last l JNull.

(** How a run [r] of the hook stands to the run [r0] it continues, once
    it has been given the updates [us]: it has processed them up to the
    first terminal one, it is cancelled exactly when there was one,
    without one its error and streaming flag are unchanged, and its
    current update is the last one processed. *)
Definition follows (r0 r : Hook.Run) (us : list JSValue) : Prop :=
  Hook.processed r = Hook.processed r0 ++ up_to_terminal us /\
  Hook.cancelled r = existsb Hook.terminal us /\
  (existsb Hook.terminal us = false ->
   Hook.error (Hook.hook r) = Hook.error (Hook.hook r0) /\
   Hook.isStreaming (Hook.hook r) = Hook.isStreaming (Hook.hook r0)) /\
  (us <> [] -> Hook.currentUpdate (Hook.hook r) = last (up_to_terminal us) JNull) /\
  (us = [] -> Hook.currentUpdate (Hook.hook r) = Hook.currentUpdate (Hook.hook r0)).


(** A string of [\w] and [-] characters, and one of [\w] and [=]. *)
Definition all_chars (p : ascii -> bool) (s : string) : bool :=
  forallb p (list_ascii_of_string s).

(** The hosts the route takes for YouTube's: [youtube.com], [youtu.be]
    and their subdomains. *)
Definition youtube_host (h : string) : bool :=
  String.eqb h "youtube.com" || endsWith h ".youtube.com"
  || String.eqb h "youtu.be" || endsWith h ".youtu.be".

(** What the hook needs of the JSON text of an update to read it back:
    the text has no newline, trimming its line leaves it as it is (it
    neither starts nor ends with white space), and parsing it gives the
    update as it is on the wire. *)
Definition serialisable (stringify : JSValue -> string)
           (parse : string -> Outcome JSValue) (u : JSValue) : Prop :=
  split_lines (stringify u) = [stringify u] /\
  trim ("data: " ++ stringify u) = ("data: " ++ stringify u)%string /\
  parse (stringify u) = Ok (wire u).

(** The tail of a URL the page accepts: any number of groups made of [&]
    and a possibly empty run of [\w] and [=] characters. *)
Inductive params : string -> Prop :=
| params_nil : params ""
| params_cons run rest :
    all_chars (HomePage.word_or "="%char) run = true -> params rest ->
    params (String "&"%char (run ++ rest)).

(** What makes the [try] block of the page's [handleAnalyze] throw: the
    fetch is rejected, the status is not a 2xx, the response has no body,
    or a read of the body fails. *)
Definition transport_failure (fetched : FetchResult) : option Thrown :=
  match fetched with
  | Rejects e => Some e
  | Resolves r =>
      if negb (ok r) then
        Some (ErrorObject ("HTTP error! status: " ++ nat_to_string (status r)))
      else
        match body r with
        | None => Some (ErrorObject "No response body")
        | Some script => failure script
        end
  end.

(** The songs of a list whose genre, [Unknown] when it has none, is [g]. *)
Definition songs_of_genre (g : string) (songs : list HomePage.Song) : list HomePage.Song :=
  filter (fun song => String.eqb (HomePage.genre_of song) g) songs.

(** A Shorts link, and the [URL] object [new URL] builds from it. *)
Definition shorts_url (id : string) : string :=
  ("https://www.youtube.com/shorts/" ++ id)%string.

Definition shorts_URL (id : string) : URL :=
  {| hostname := "www.youtube.com"; pathname := ("/shorts/" ++ id)%string;
     searchParams := [] |}.

(** The accumulator of [groupedSongs] after the songs [seen]: each genre
    seen is an own property holding its songs in order. *)
Definition grouped (acc : HomePage.Groups) (seen : list HomePage.Song) : Prop :=
  forall g, HomePage.own g acc = match songs_of_genre g seen with
                                 | [] => None
                                 | l => Some l
                                 end.

(** [update.status === 'complete'], as the component reads it. *)
Definition is_complete (update : JSValue) : bool :=
  strict_eq_str (MatchExample.status_of update) "complete".

(** The hook's error is still [null], or an [error] event has been
    processed. *)
Definition error_from_event (r : Hook.Run) : Prop :=
  Hook.error (Hook.hook r) = JNull \/
  exists v, In v (Hook.processed r) /\ Hook.is_error v = true.





End Readings.

(* ================================================================= *)
(** ** More stand-ins for the examples *)

Module MoreSamples.
Import JS.
Import MatchRoute.
Import Samples.

(** [new URL] on one more string: a Shorts link. *)
Definition shorts_new_URL : JSValue -> Outcome URL :=
  new_URL_of
    [("https://www.youtube.com/shorts/abc123",
      {| hostname := "www.youtube.com"; pathname := "/shorts/abc123";
         searchParams := [] |})].

(** A 200 response of the backend whose reader delivers [parts] and then
    reports [done]. *)
Definition script_of (parts : list string) : ReadScript :=
  {| chunks := parts; failure := None |}.

Definition streamed (parts : list string) : BackendResponse :=
  {| status := 200; text := Ok ""; body := Some (script_of parts) |}.

Definition three_songs : list HomePage.Song :=
  [{| HomePage.artist := "Oasis"; HomePage.title := "Wonderwall"; HomePage.genre := "Indie Rock" |};
   {| HomePage.artist := "Nirvana"; HomePage.title := "Lithium"; HomePage.genre := "" |};
   {| HomePage.artist := "Blur"; HomePage.title := "Song 2"; HomePage.genre := "Indie Rock" |}].

Definition home_with (url : string) : HomePage.Home :=
  {| HomePage.view := {| Page.processingStage := Page.idle;
                         Page.result := None;
                         Page.pageError := None |};
     HomePage.youtubeUrl := url;
     HomePage.urlError := None |}.

(** The updates of a short run of the route: a download, a failure, and
    one more update after the failure. *)
Definition route_frames : list JSValue :=
  [route_downloading_update; route_error_update; route_downloading_update].

(** The text of those updates, cut in the middle of the first line. *)
Definition route_frames_script : ReadScript :=
  script_of ["data: "; substring_from 6 (Transport.sse_text json_text route_frames)].

(** A request for a video of another site. *)
Definition other_site_request : Outcome JSValue :=
  Ok (JObj [("youtubeUrl", JStr "https://example.com/watch?v=dQw4w9WgXcQ")]).

(** The route's answer to the page when it refuses the request. *)
Definition refusal_400 : BackendResponse :=
  {| status := 400; text := Ok ""; body := None |}.

(** The groups of [three_songs]. *)
Definition three_songs_groups : HomePage.Groups :=
  [("Indie Rock",
    [{| HomePage.artist := "Oasis"; HomePage.title := "Wonderwall";
        HomePage.genre := "Indie Rock" |};
     {| HomePage.artist := "Blur"; HomePage.title := "Song 2";
        HomePage.genre := "Indie Rock" |}]);
   ("Unknown",
    [{| HomePage.artist := "Nirvana"; HomePage.title := "Lithium"; HomePage.genre := "" |}])].







End MoreSamples.

(* ================================================================= *)
(** * Properties *)

(** ** Values and strings *)

Module JSFacts.
Import JS.
Import Statements.

Lemma lookup_remove_key (k k' : string) (fs : list (string * JSValue)) :
  lookup k (remove_key k' fs) = if String.eqb k' k then None else lookup k fs.
Proof.
  induction fs as [|[k0 x] fs IH]; simpl.
  - now destruct (String.eqb k' k).
  - destruct (String.eqb_spec k' k0) as [->|Hne]; simpl.
    + rewrite IH. destruct (String.eqb_spec k0 k) as [->|Hne']; [reflexivity|].
      destruct (String.eqb_spec k k0); congruence.
    + rewrite IH. destruct (String.eqb_spec k k0) as [->|Hne'].
      * destruct (String.eqb_spec k' k0); congruence.
      * reflexivity.
Qed.

(** The members of the JSON text of an object are its defined
    properties. *)
Lemma wire_field_object (fs : list (string * JSValue)) (k : string) :
  wire_field (JObj fs) k = match lookup k fs with
                           | Some x => on_wire x
                           | None => None
                           end.
Proof.
  unfold wire_field. cbn [wire].
  induction fs as [|[k0 x] fs IH]; [reflexivity|].
  assert (Hr : k <> k0 ->
               lookup k (remove_key k0 (wire_members wire fs))
               = match lookup k fs with Some y => on_wire y | None => None end).
  { intros Hne. rewrite lookup_remove_key.
    destruct (String.eqb_spec k0 k); [congruence | exact IH]. }
  cbn [wire_members lookup].
  destruct (String.eqb_spec k k0) as [->|Hne].
  - destruct x; cbn [lookup on_wire]; rewrite ?String.eqb_refl; try reflexivity.
    rewrite lookup_remove_key. now rewrite String.eqb_refl.
  - specialize (Hr Hne).
    destruct x; cbn [lookup];
      try (destruct (String.eqb_spec k k0); [congruence|]); exact Hr.
Qed.

Lemma get_prop_wire_field (v : JSValue) (k : string) (x : JSValue) :
  get_prop v k = Ok x -> wire_field v k = on_wire x.
Proof.
  destruct v; simpl; try discriminate; intros H; inversion H; subst; try reflexivity.
  rewrite wire_field_object. destruct (lookup k fields); reflexivity.
Qed.

(** Reading a property of the value received is reading it before the
    value is sent. *)
Lemma get_prop_wire (v : JSValue) (k : string) :
  get_prop (wire v) k = (x <- get_prop v k ;; Ok (wire x)).
Proof.
  destruct v; try reflexivity.
  change (get_prop (wire (JObj fields)) k)
    with (Ok (match wire_field (JObj fields) k with Some x => x | None => JUndefined end)).
  rewrite wire_field_object. simpl.
  destruct (lookup k fields) as [x|]; [|reflexivity]. now destruct x.
Qed.

Lemma get_prop_object (fs : list (string * JSValue)) (k : string) :
  exists x, get_prop (JObj fs) k = Ok x.
Proof. simpl. eauto. Qed.

Lemma get_prop_twice (v : JSValue) (k k' : string) (x : JSValue) :
  get_prop v k = Ok x -> exists y, get_prop v k' = Ok y.
Proof. destruct v; simpl; try discriminate; eauto. Qed.


Lemma pop_snoc {A} (l : list A) (x : A) : pop (l ++ [x]) = (l, Some x).
Proof. unfold pop. rewrite rev_app_distr. simpl. now rewrite rev_involutive. Qed.

Lemma split_lines_snoc (s : string) :
  exists init last, split_lines s = init ++ [last].
Proof.
  induction s as [|c s (init & last & IH)]; simpl.
  - exists [], "". reflexivity.
  - destruct (Ascii.eqb c "010").
    + exists ("" :: init), last. now rewrite IH.
    + rewrite IH. destruct init as [|h r]; simpl.
      * exists [], (String c last). reflexivity.
      * exists (String c h :: r), last. reflexivity.
Qed.

Lemma split_lines_decompose (s : string) :
  split_lines s = complete_lines s ++ [unfinished_line s].
Proof.
  destruct (split_lines_snoc s) as (init & last & H).
  unfold complete_lines, unfinished_line. rewrite H, pop_snoc. reflexivity.
Qed.

Lemma split_lines_inv (s : string) (init : list string) (last : string) :
  split_lines s = init ++ [last] -> complete_lines s = init /\ unfinished_line s = last.
Proof.
  intros H. unfold complete_lines, unfinished_line. rewrite H, pop_snoc. auto.
Qed.

Lemma split_lines_append (s t : string) :
  split_lines (s ++ t) = complete_lines s ++ split_lines (unfinished_line s ++ t).
Proof.
  destruct (split_lines_snoc s) as (init & last & H).
  destruct (split_lines_inv _ _ _ H) as [-> ->].
  revert init last H. induction s as [|c s IH]; simpl; intros init last H.
  - destruct init as [|? [|? ?]]; inversion H; subst. reflexivity.
  - destruct (split_lines_snoc s) as (init' & last' & H').
    specialize (IH _ _ H'). rewrite H' in H. rewrite IH.
    destruct (Ascii.eqb c "010") eqn:E.
    + change ("" :: init' ++ [last']) with (("" :: init') ++ [last']) in H.
      apply app_inj_tail in H as [<- <-]. reflexivity.
    + destruct init' as [|h r]; simpl in *.
      * change [String c last'] with ([] ++ [String c last']) in H.
        apply app_inj_tail in H as [<- <-]. simpl. now rewrite E.
      * change (String c h :: r ++ [last']) with ((String c h :: r) ++ [last']) in H.
        apply app_inj_tail in H as [<- <-]. reflexivity.
Qed.

Lemma split_lines_no_newline (s : string) : Forall no_newline (split_lines s).
Proof.
  unfold no_newline.
  induction s as [|c s IH]; simpl.
  - constructor; [reflexivity | constructor].
  - destruct (Ascii.eqb c "010") eqn:E.
    + constructor; [reflexivity | exact IH].
    + destruct (split_lines s) as [|h r]; simpl.
      * constructor; [simpl; now rewrite E | constructor].
      * inversion IH; subst. constructor; [simpl; rewrite E | assumption].
        match goal with H : split_lines h = _ |- _ => now rewrite H end.
Qed.

Lemma unfinished_line_no_newline (s : string) : no_newline (unfinished_line s).
Proof.
  pose proof (split_lines_no_newline s) as H.
  rewrite split_lines_decompose in H.
  apply Forall_app in H as [_ H]. now inversion H.
Qed.

Lemma complete_lines_no_newline (s : string) : no_newline s -> complete_lines s = [].
Proof.
  unfold no_newline. intros H.
  change [s] with ([] ++ [s]) in H. now apply split_lines_inv in H.
Qed.

Lemma complete_lines_append (s t : string) :
  complete_lines (s ++ t) = complete_lines s ++ complete_lines (unfinished_line s ++ t).
Proof.
  pose proof (split_lines_append s t) as H.
  rewrite (split_lines_decompose (unfinished_line s ++ t)), app_assoc in H.
  now apply split_lines_inv in H.
Qed.

Lemma unfinished_line_append (s t : string) :
  unfinished_line (s ++ t) = unfinished_line (unfinished_line s ++ t).
Proof.
  pose proof (split_lines_append s t) as H.
  rewrite (split_lines_decompose (unfinished_line s ++ t)), app_assoc in H.
  now apply split_lines_inv in H.
Qed.

Lemma append_assoc (a b c : string) : ((a ++ b) ++ c = a ++ (b ++ c))%string.
Proof. induction a; simpl; congruence. Qed.

End JSFacts.

(* ================================================================= *)
(** ** The match route *)

Module MatchRouteFacts.
Import JS.
Import MatchRoute.
Import Statements.
Import JSFacts.

Ltac step_bind :=
  match goal with
  | H : context [bind ?c _] |- _ =>
      let x := fresh "x" in
      let E := fresh "E" in
      destruct c as [x|?] eqn:E; simpl in H; [|discriminate H]
  end.

(** The three shapes [transform] builds, by the status of the event. *)
Lemma transform_cases (data u : JSValue) :
  transform data = Ok u ->
  exists st, get_prop data "status" = Ok st /\
    ((strict_eq_str st "complete" = true /\
      exists m a t g c x y,
        get_prop data "match" = Ok m /\
        get_prop m "artist" = Ok a /\ get_prop m "title" = Ok t /\
        get_prop m "genre" = Ok g /\
        get_prop data "confidence" = Ok c /\
        get_prop data "audio_similarity" = Ok x /\
        get_prop data "lyrics_similarity" = Ok y /\
        u = CompleteUpdate a t g c x y)
     \/ (strict_eq_str st "complete" = false /\ strict_eq_str st "error" = true /\
         exists p e m,
           get_prop data "progress" = Ok p /\ get_prop data "error" = Ok e /\
           get_prop data "message" = Ok m /\
           u = ErrorUpdate (js_or p (num 0)) (js_or e (js_or m (JStr "Unknown error"))))
     \/ (strict_eq_str st "complete" = false /\ strict_eq_str st "error" = false /\
         exists p m,
           get_prop data "progress" = Ok p /\ get_prop data "message" = Ok m /\
           u = ProgressUpdate st p m)).
Proof.
  unfold transform. intros H. step_bind. exists x. split; [reflexivity|].
  destruct (strict_eq_str x "complete") eqn:Ec; [|destruct (strict_eq_str x "error") eqn:Ee].
  - left. split; [reflexivity|]. repeat step_bind. inversion H; subst.
    do 7 eexists. repeat (split; [eassumption || reflexivity|]). reflexivity.
  - right; left. do 2 (split; [reflexivity|]). repeat step_bind. inversion H; subst.
    do 3 eexists. repeat (split; [eassumption || reflexivity|]). reflexivity.
  - right; right. do 2 (split; [reflexivity|]). repeat step_bind. inversion H; subst.
    do 2 eexists. repeat (split; [eassumption || reflexivity|]). reflexivity.
Qed.

Lemma has_status_complete (a t g c x y : JSValue) (s : string) :
  has_status s (CompleteUpdate a t g c x y) = String.eqb "complete" s.
Proof. unfold has_status, CompleteUpdate. rewrite wire_field_object. reflexivity. Qed.

Lemma has_status_error (p e : JSValue) (s : string) :
  has_status s (ErrorUpdate p e) = String.eqb "error" s.
Proof. unfold has_status, ErrorUpdate. rewrite wire_field_object. reflexivity. Qed.

Lemma has_status_progress (st p m : JSValue) (s : string) :
  has_status s (ProgressUpdate st p m) = strict_eq_str st s.
Proof.
  unfold has_status, ProgressUpdate. rewrite wire_field_object.
  destruct st; reflexivity.
Qed.

(** The members of an object literal are among the names it writes. *)
Lemma wire_field_keys (fs : list (string * JSValue)) (k : string) :
  wire_field (JObj fs) k <> None -> In k (map fst fs).
Proof.
  rewrite wire_field_object.
  induction fs as [|[k0 x] fs IH]; simpl; [congruence|].
  destruct (String.eqb_spec k k0) as [->|_]; auto.
Qed.

(** Which branch built an update is visible in its status. *)
Lemma transform_status (data u : JSValue) (s : string) :
  transform data = Ok u ->
  s = "complete" \/ s = "error" ->
  forall st, get_prop data "status" = Ok st -> has_status s u = strict_eq_str st s.
Proof.
  intros H Hs st Hst.
  destruct (transform_cases _ _ H) as (st' & Hst' & Hc).
  rewrite Hst in Hst'. inversion Hst'; subst st'. clear Hst'.
  destruct Hc as [(Ec & m & a & t & g & c & x & y & _ & _ & _ & _ & _ & _ & _ & ->)
                 |[(Ec & Ee & p & e & m & _ & _ & _ & ->)
                  |(Ec & Ee & p & m & _ & _ & ->)]].
  - rewrite has_status_complete. destruct st; try discriminate. simpl in *.
    apply String.eqb_eq in Ec. subst. destruct Hs; subst; reflexivity.
  - rewrite has_status_error. destruct st; try discriminate. simpl in *.
    apply String.eqb_eq in Ee. subst. destruct Hs; subst; reflexivity.
  - apply has_status_progress.
Qed.

Section Route.

Variable new_URL : JSValue -> Outcome URL.
Variable JSON_parse : string -> Outcome JSValue.

Lemma forward_line_forwarded (line : string) (u : JSValue) :
  In u (forward_line JSON_parse line) -> exists data, forwarded_from JSON_parse data u.
Proof.
  unfold forward_line.
  destruct (negb _ || negb _); [intros []|].
  destruct (JSON_parse _) as [data|] eqn:E; simpl; [|intros []].
  destruct (transform data) as [u'|] eqn:T; simpl; [|intros []].
  intros [<-|[]]. exists data. split; [eauto | assumption].
Qed.

(** An event sent by the backend is forwarded as at most one update. *)
Lemma forward_line_at_most_one (line : string) :
  List.length (forward_line JSON_parse line) <= 1.
Proof.
  unfold forward_line.
  destruct (negb _ || negb _); simpl; [lia|].
  destruct (bind _ _); simpl; lia.
Qed.

(** The buffering of the read loop forwards exactly the complete lines
    of the text received, in order. *)
Lemma read_loop_complete_lines (pending : list string) (ending : option Thrown)
      (buffer : string) :
  no_newline buffer ->
  read_loop JSON_parse pending ending buffer =
    (flat_map (forward_line JSON_parse) (complete_lines (buffer ++ received pending)),
     ending).
Proof.
  revert buffer. induction pending as [|value rest IH]; intros buffer Hb; simpl.
  - replace (buffer ++ "")%string with buffer.
    + now rewrite complete_lines_no_newline.
    + clear. induction buffer; simpl; congruence.
  - rewrite <- append_assoc, complete_lines_append.
    unfold complete_lines at 1, unfinished_line.
    destruct (pop (split_lines (buffer ++ value))) as [lines last] eqn:P. simpl.
    assert (Hl : no_newline (match last with Some l => l | None => "" end)).
    { pose proof (unfinished_line_no_newline (buffer ++ value)) as Hu.
      unfold unfinished_line in Hu. now rewrite P in Hu. }
    rewrite (IH _ Hl). now rewrite flat_map_app.
Qed.

Lemma read_loop_forwarded (pending : list string) (ending : option Thrown)
      (buffer : string) (u : JSValue) :
  In u (fst (read_loop JSON_parse pending ending buffer)) ->
  exists data, forwarded_from JSON_parse data u.
Proof.
  revert buffer. induction pending as [|value rest IH]; intros buffer; simpl.
  - intros [].
  - destruct (pop _) as [lines last].
    destruct (read_loop JSON_parse rest ending _) as [later thrown] eqn:R. simpl.
    intros H. apply in_app_or in H as [H|H].
    + apply in_flat_map in H as (line & _ & H). eapply forward_line_forwarded; eauto.
    + apply (IH (match last with Some l => l | None => "" end)). now rewrite R.
Qed.

Lemma start_events (fetched : FetchResult) (u : JSValue) :
  In u (start JSON_parse fetched) ->
  (exists data, forwarded_from JSON_parse data u) \/ raised_by_route u.
Proof.
  unfold start.
  destruct (start_try JSON_parse fetched) as [frames thrown] eqn:S.
  assert (Hf : forall v, In v frames ->
                 (exists data, forwarded_from JSON_parse data v) \/ raised_by_route v).
  { unfold start_try in S. destruct fetched as [e|r].
    - inversion S; subst. intros v [].
    - destruct (negb (ok r)).
      + destruct (text r); inversion S; subst; intros v; [intros [<-|[]]|intros []].
        right. eexists. reflexivity.
      + destruct (body r) as [script|].
        * intros v Hv. left. eapply read_loop_forwarded. rewrite S. exact Hv.
        * inversion S; subst. intros v [<-|[]]. right. eexists. reflexivity. }
  destruct thrown as [e|]; [|apply Hf].
  intros H. apply in_app_or in H as [H|[<-|[]]]; [now apply Hf|].
  right. eexists. reflexivity.
Qed.

(** Every event of the stream a response carries is the transform of a
    backend event or an error raised by the route. *)
Lemma POST_events (request_json : Outcome JSValue) (backend : JSValue -> FetchResult)
      (u : JSValue) :
  In u (events (response (POST new_URL JSON_parse request_json backend))) ->
  (exists data, forwarded_from JSON_parse data u) \/ raised_by_route u.
Proof.
  unfold POST, POST_try.
  destruct request_json as [body|e]; simpl; [|intros []].
  destruct (get_prop body "youtubeUrl") as [youtubeUrl|e]; simpl; [|intros []].
  destruct (negb (truthy youtubeUrl)); simpl; [intros []|].
  destruct (isValidYouTubeUrl new_URL youtubeUrl) as [valid|e]; simpl; [|intros []].
  destruct (negb valid); simpl; [intros []|].
  apply start_events.
Qed.

End Route.

End MatchRouteFacts.

(* ================================================================= *)
(** ** The events of the match stream *)

Module MatchStream.
Import JS.
Import MatchRoute.
Import Types.
Import Statements.
Import JSFacts.
Import MatchRouteFacts.
Import Samples.

(** C1, as stated, fails: a success event carries combinedScore, gap and
    top5.  The backend sends all three and the route forwards none. *)
Lemma complete_event_lacks_scores :
  exists u,
    In u (events (response (route_exchange [backend_complete "HIGH"]))) /\
    has_status "complete" u = true /\
    wire_field (backend_complete "HIGH") "gap" = Some (num 1) /\
    wire_field u "combinedScore" = None /\
    wire_field u "gap" = None /\
    wire_field u "top5" = None.
Proof.
  eexists. split; [vm_compute; left; reflexivity|].
  repeat split; reflexivity.
Qed.

(** C1 (amended): every terminal success event of the match stream is
    the transform of a backend event with status complete; it has status
    complete and progress 100 and carries a match object holding the
    artist, title and genre of the backend's match, the backend's
    confidence, and its audio_similarity and lyrics_similarity under the
    names audioSim and lyricsSim (each one absent when the backend left
    it out).  It has no other member: no combinedScore, gap or top5. *)
Theorem complete_event_fields
    (new_URL : JSValue -> Outcome URL) (JSON_parse : string -> Outcome JSValue)
    (request_json : Outcome JSValue) (backend : JSValue -> FetchResult) (u : JSValue) :
  In u (events (response (POST new_URL JSON_parse request_json backend))) ->
  has_status "complete" u = true ->
  exists data m a t g c x y,
    forwarded_from JSON_parse data u /\
    get_prop data "status" = Ok (JStr "complete") /\
    get_prop data "match" = Ok m /\
    get_prop m "artist" = Ok a /\ get_prop m "title" = Ok t /\ get_prop m "genre" = Ok g /\
    get_prop data "confidence" = Ok c /\
    get_prop data "audio_similarity" = Ok x /\
    get_prop data "lyrics_similarity" = Ok y /\
    wire_field u "status" = Some (JStr "complete") /\
    wire_field u "progress" = Some (num 100) /\
    (exists track,
        wire_field u "match" = Some track /\
        get_prop track "artist" = Ok (wire a) /\
        get_prop track "title" = Ok (wire t) /\
        get_prop track "genre" = Ok (wire g)) /\
    wire_field u "confidence" = on_wire c /\
    wire_field u "audioSim" = on_wire x /\
    wire_field u "lyricsSim" = on_wire y /\
    (forall k, wire_field u k <> None ->
               In k ["status"; "progress"; "match"; "confidence"; "audioSim"; "lyricsSim"]) /\
    wire_field u "combinedScore" = None /\
    wire_field u "gap" = None /\
    wire_field u "top5" = None.
Proof.
  intros Hin Hs.
  destruct (POST_events _ _ _ _ _ Hin) as [(data & Hf)|(msg & ->)];
    [|rewrite has_status_error in Hs; discriminate].
  destruct (transform_cases _ _ (proj2 Hf)) as (st & Hst & Hc).
  pose proof (transform_status _ _ "complete" (proj2 Hf) (or_introl eq_refl) _ Hst) as Hb.
  rewrite Hs in Hb. symmetry in Hb.
  destruct Hc as [(_ & m & a & t & g & c & x & y & Hm & Ha & Ht & Hg & Hc & Hx & Hy & Hu)
                 |[(Ec & _)|(Ec & _)]]; try congruence.
  destruct st; try discriminate. simpl in Hb. apply String.eqb_eq in Hb. subst s.
  exists data, m, a, t, g, c, x, y.
  repeat (split; [assumption|]). subst u. unfold CompleteUpdate.
  repeat (split; [rewrite wire_field_object; reflexivity|]).
  split.
  { exists (wire (JObj [("artist", a); ("title", t); ("genre", g)])).
    split; [rewrite wire_field_object; reflexivity|].
    repeat split; rewrite get_prop_wire; reflexivity. }
  repeat (split; [rewrite wire_field_object; reflexivity|]).
  split; [apply wire_field_keys|].
  repeat split; rewrite wire_field_object; reflexivity.
Qed.

Lemma complete_event_fields_witness :
  exists u data,
    In u (events (response (route_exchange [backend_complete "HIGH"]))) /\
    forwarded_from (JSON_parse_texts [backend_complete "HIGH"]) data u /\
    wire_field u "progress" = Some (num 100) /\
    wire_field u "gap" = None.
Proof.
  pose (u := CompleteUpdate (JStr "Oasis") (JStr "Wonderwall") (JStr "Britpop")
                            (JStr "HIGH") (num 1) (num 1)).
  assert (Hin : In u (events (response (route_exchange [backend_complete "HIGH"]))))
    by (vm_compute; left; reflexivity).
  destruct (complete_event_fields _ _ _ _ u Hin eq_refl)
    as (data & m & a & t & g & c & x & y & Hf & _ & _ & _ & _ & _ & _ & _ & _ & _ & Hp & _
        & _ & _ & _ & _ & _ & Hg & _).
  exists u, data. auto.
Defined.

(** The route reads the match of a complete event at its top level: an
    event that has none there makes the transform throw, the error is
    logged and nothing is forwarded for it. *)
Example complete_event_without_match_is_dropped :
  transform backend_complete_nested
  = Throw (ErrorObject "Cannot read properties of undefined (reading 'artist')") /\
  events (response (route_exchange [backend_downloading; backend_complete_nested]))
  = [ProgressUpdate (JStr "downloading") (num 0) (JStr "Downloading audio...")].
Proof. split; vm_compute; reflexivity. Qed.




(** C7, as stated, fails: the route forwards what the backend sends
    without looking at it.  An event with another status and a progress
    beyond 100 reaches the client as it is. *)
Lemma progress_event_not_checked :
  exists u,
    In u (events (response (route_exchange [backend_queued]))) /\
    is_terminal u = false /\
    wire_field u "status" = Some (JStr "queued") /\
    wire_field u "progress" = Some (num 150) /\
    well_formed_progress u = false.
Proof.
  eexists. split; [vm_compute; left; reflexivity|].
  repeat split; reflexivity.
Qed.

(** C7 (amended): every non-terminal event forwarded to the client by
    POST /api/match carries the status, progress and message of the
    backend event it comes from, unchanged, and nothing else; its status
    is neither complete nor error.  So it has a status among downloading,
    fingerprinting, transcribing and matching, an integer progress
    between 0 and 100 and an optional string message exactly when the
    backend event has. *)
Theorem progress_event_fields
    (new_URL : JSValue -> Outcome URL) (JSON_parse : string -> Outcome JSValue)
    (request_json : Outcome JSValue) (backend : JSValue -> FetchResult) (u : JSValue) :
  In u (events (response (POST new_URL JSON_parse request_json backend))) ->
  is_terminal u = false ->
  exists data st p m,
    forwarded_from JSON_parse data u /\
    get_prop data "status" = Ok st /\
    get_prop data "progress" = Ok p /\
    get_prop data "message" = Ok m /\
    u = ProgressUpdate st p m /\
    strict_eq_str st "complete" = false /\
    strict_eq_str st "error" = false /\
    wire_field u "status" = wire_field data "status" /\
    wire_field u "progress" = wire_field data "progress" /\
    wire_field u "message" = wire_field data "message" /\
    (forall k, wire_field u k <> None -> In k ["status"; "progress"; "message"]) /\
    well_formed_progress u = well_formed_progress data.
Proof.
  intros Hin Ht. unfold is_terminal in Ht. apply orb_false_elim in Ht as [Hc He].
  destruct (POST_events _ _ _ _ _ Hin) as [(data & Hf)|(msg & ->)];
    [|rewrite has_status_error in He; discriminate].
  destruct (transform_cases _ _ (proj2 Hf)) as (st & Hst & Hcases).
  pose proof (transform_status _ _ "complete" (proj2 Hf) (or_introl eq_refl) _ Hst) as Hbc.
  pose proof (transform_status _ _ "error" (proj2 Hf) (or_intror eq_refl) _ Hst) as Hbe.
  rewrite Hc in Hbc. rewrite He in Hbe.
  destruct Hcases as [(Ec & _)|[(_ & Ee & _)|(Ec & Ee & p & m & Hp & Hm & Hu)]];
    try congruence.
  exists data, st, p, m.
  repeat (split; [assumption|]).
  assert (Hws : wire_field u "status" = wire_field data "status").
  { rewrite (get_prop_wire_field _ _ _ Hst). subst u. apply wire_field_object. }
  assert (Hwp : wire_field u "progress" = wire_field data "progress").
  { rewrite (get_prop_wire_field _ _ _ Hp). subst u. apply wire_field_object. }
  assert (Hwm : wire_field u "message" = wire_field data "message").
  { rewrite (get_prop_wire_field _ _ _ Hm). subst u. apply wire_field_object. }
  repeat (split; [assumption|]).
  split; [|unfold well_formed_progress; congruence].
  subst u. apply wire_field_keys.
Qed.

Lemma progress_event_fields_witness :
  exists u data,
    In u (events (response (route_exchange [backend_downloading]))) /\
    forwarded_from (JSON_parse_texts [backend_downloading]) data u /\
    well_formed_progress u = well_formed_progress data /\
    well_formed_progress u = true.
Proof.
  pose (v := ProgressUpdate (JStr "downloading") (num 0) (JStr "Downloading audio...")).
  assert (Hin : In v (events (response (route_exchange [backend_downloading]))))
    by (vm_compute; left; reflexivity).
  destruct (progress_event_fields _ _ _ _ v Hin eq_refl)
    as (data & st & p & m & Hf & _ & _ & _ & _ & _ & _ & _ & _ & _ & _ & Hw).
  exists v, data.
  split; [exact Hin | split; [exact Hf | split; [exact Hw | reflexivity]]].
Defined.

End MatchStream.

(* ================================================================= *)
(** ** The stream hook *)

Module HookFacts.
Import JS.
Import MatchRoute.
Import Hook.
Import JSFacts.

Lemma reading_start :
  reading {| hook := {| currentUpdate := JNull; isStreaming := true; error := JNull |};
             cancelled := false;
             processed := [] |}.
Proof. split; [reflexivity | constructor]. Qed.

Lemma stopped_setIsStreaming (r : Run) : stopped r -> stopped (setIsStreaming false r).
Proof.
  intros (Hc & _ & pre & u & Hp & Hpre & Ht & Hu & He).
  split; [exact Hc|]. split; [reflexivity|]. exists pre, u. auto.
Qed.

Lemma reading_setIsStreaming (b : bool) (r : Run) : reading r -> reading (setIsStreaming b r).
Proof. intros [Hc Hp]. split; assumption. Qed.

Lemma reading_setError (e : JSValue) (r : Run) : reading r -> reading (setError e r).
Proof. intros [Hc Hp]. split; assumption. Qed.

Section StartMatch.

Variable JSON_parse : string -> Outcome JSValue.
Variable ToString : JSValue -> string.

(** One event: either the loop goes on and nothing terminal has been
    processed, or the event was terminal and the hook has stopped. *)
Lemma on_data_step (jsonData : string) (r : Run) :
  reading r ->
  (snd (on_data JSON_parse jsonData r) = false /\ reading (fst (on_data JSON_parse jsonData r)))
  \/ (snd (on_data JSON_parse jsonData r) = true /\ stopped (fst (on_data JSON_parse jsonData r))).
Proof.
  intros [Hc Hp]. unfold on_data.
  destruct (JSON_parse jsonData) as [update|e]; [|left; repeat split; assumption].
  destruct (get_prop update "status") as [st|e] eqn:Est.
  - destruct (strict_eq_str st "complete" || strict_eq_str st "error") eqn:Et.
    + assert (Hterm : terminal update = true) by (unfold terminal; now rewrite Est).
      destruct (strict_eq_str st "error") eqn:Ee.
      * destruct (get_prop_twice _ _ "error" _ Est) as [x Hx]. rewrite Hx.
        right. split; [reflexivity|]. split; [reflexivity|]. split; [reflexivity|].
        exists (processed r), update. repeat split; auto.
      * right. split; [reflexivity|]. split; [reflexivity|]. split; [reflexivity|].
        exists (processed r), update. repeat split; auto.
        unfold is_error. rewrite Est, Ee. discriminate.
    + left. split; [reflexivity|]. split; [exact Hc|]. simpl.
      apply Forall_app. split; [exact Hp|]. constructor; [|constructor].
      unfold terminal. now rewrite Est.
  - left. split; [reflexivity|]. split; [exact Hc|]. simpl.
    apply Forall_app. split; [exact Hp|]. constructor; [|constructor].
    unfold terminal. now rewrite Est.
Qed.

Lemma for_lines_step (lines : list string) (r : Run) :
  reading r ->
  (snd (for_lines JSON_parse lines r) = false /\ reading (fst (for_lines JSON_parse lines r)))
  \/ (snd (for_lines JSON_parse lines r) = true /\ stopped (fst (for_lines JSON_parse lines r))).
Proof.
  revert r. induction lines as [|line rest IH]; intros r Hr; simpl.
  - left. split; [reflexivity | exact Hr].
  - destruct (negb _ || negb _); [now apply IH|].
    destruct (on_data_step (substring_from 6 (trim line)) r Hr) as [[Hs Hq]|[Hs Hq]];
      destruct (on_data JSON_parse _ r) as [r' stop]; simpl in *; subst stop.
    + now apply IH.
    + right. split; [reflexivity | exact Hq].
Qed.

Lemma read_loop_step (pending : list string) (ending : option Thrown) (buffer : string)
      (r : Run) :
  reading r \/ stopped r ->
  match read_loop JSON_parse pending ending buffer r with
  | (r', None) => (reading r' \/ stopped r') /\ isStreaming (hook r') = false
  | (r', Some _) => reading r'
  end.
Proof.
  revert buffer r. induction pending as [|value rest IH]; intros buffer r Hr; simpl.
  - destruct (cancelled r) eqn:Ec.
    + destruct Hr as [[Hc _]|Hs]; [congruence|].
      split; [right; now apply stopped_setIsStreaming | reflexivity].
    + destruct Hr as [Hq|[Hc _]]; [|congruence].
      destruct ending as [e|]; [exact Hq|].
      split; [left; now apply reading_setIsStreaming | reflexivity].
  - destruct (cancelled r) eqn:Ec.
    + destruct Hr as [[Hc _]|Hs]; [congruence|].
      split; [right; now apply stopped_setIsStreaming | reflexivity].
    + destruct Hr as [Hq|[Hc _]]; [|congruence].
      destruct (pop _) as [lines last].
      apply IH. destruct (for_lines_step lines r Hq) as [[_ H]|[_ H]]; auto.
Qed.

(** When [startMatch] is over, either no terminal event was processed or
    the hook stopped at one. *)
Lemma startMatch_end (fetched : Fetched) :
  let r := startMatch JSON_parse ToString fetched in
  Forall (fun u => terminal u = false) (processed r) \/ stopped r.
Proof.
  unfold startMatch, startMatch_try.
  destruct fetched as [e|code errorData| |script].
  - left. constructor.
  - destruct (bind errorData _); left; constructor.
  - left. constructor.
  - pose proof (read_loop_step (chunks script) (failure script) "" _ (or_introl reading_start))
      as H.
    destruct (read_loop _ _ _ _ _) as [r' [e|]].
    + left. apply H.
    + destruct H as [[[_ H]|H] _]; [left; exact H | right; exact H].
Qed.

End StartMatch.


End HookFacts.

(* ================================================================= *)
(** ** Terminal events *)

Module TerminalEvents.
Import JS.
Import MatchRoute.
Import Hook.
Import Statements.
Import JSFacts.
Import MatchRouteFacts.
Import HookFacts.
Import Samples.


(** The same when the connection to the backend breaks after an error
    event: the route adds an error event of its own. *)
Example route_two_error_events :
  let broken :=
    Resolves {| status := 200; text := Ok "";
                body := Some {| chunks := [data_line backend_error];
                                failure := Some (ErrorObject "terminated") |} |} in
  start (JSON_parse_texts [backend_error]) broken =
    [ErrorUpdate (num 25) (JStr "Download failed");
     ErrorUpdate (num 0) (JStr "terminated")].
Proof. vm_compute. reflexivity. Qed.



(** C10: in useMatchStream, after a terminal event (status complete or
    error) is processed, isStreaming is false and the reader is
    cancelled; and when the terminal event is an error, the hook's error
    state is the error of that event. *)
Theorem terminal_event_stops_hook
    (JSON_parse : string -> Outcome JSValue) (ToString : JSValue -> string)
    (fetched : Fetched) (u : JSValue) :
  In u (processed (startMatch JSON_parse ToString fetched)) ->
  terminal u = true ->
  isStreaming (hook (startMatch JSON_parse ToString fetched)) = false /\
  cancelled (startMatch JSON_parse ToString fetched) = true /\
  currentUpdate (hook (startMatch JSON_parse ToString fetched)) = u /\
  (is_error u = true ->
   get_prop u "error" = Ok (error (hook (startMatch JSON_parse ToString fetched)))).
Proof.
  intros Hin Hu.
  destruct (startMatch_end JSON_parse ToString fetched) as [H|H].
  - rewrite Forall_forall in H. specialize (H _ Hin). congruence.
  - destruct H as (Hc & Hs & pre & u' & Hp & Hpre & _ & Hcur & Herr).
    rewrite Hp in Hin. apply in_app_or in Hin as [Hin|[<-|[]]].
    + rewrite Forall_forall in Hpre. specialize (Hpre _ Hin). congruence.
    + auto.
Qed.

Lemma terminal_event_stops_hook_witness :
  isStreaming (hook (hook_run [route_error_update])) = false /\
  cancelled (hook_run [route_error_update]) = true /\
  error (hook (hook_run [route_error_update])) = JStr "Download failed".
Proof.
  assert (Hin : In route_error_update (processed (hook_run [route_error_update])))
    by (vm_compute; left; reflexivity).
  destruct (terminal_event_stops_hook _ _ _ route_error_update Hin eq_refl)
    as (Hs & Hc & _ & He).
  split; [exact Hs|]. split; [exact Hc|].
  specialize (He eq_refl). simpl in He. inversion He as [He']. reflexivity.
Defined.

End TerminalEvents.

(* ================================================================= *)
(** ** Request validation *)

Module Validation.
Import JS.
Import MatchRoute.
Import Statements.
Import Samples.

Example watch_url_is_valid :
  isValidYouTubeUrl sample_new_URL (JStr watch_url) = Ok true.
Proof. reflexivity. Qed.

Example other_host_is_invalid :
  isValidYouTubeUrl sample_new_URL (JStr "https://example.com/watch?v=dQw4w9WgXcQ") = Ok false.
Proof. reflexivity. Qed.

(** C8: for every input, also one that does not parse as a URL,
    isValidYouTubeUrl returns a boolean and never throws: a failure of
    the URL parser is caught and yields false. *)
Theorem isValidYouTubeUrl_never_throws
    (new_URL : JSValue -> Outcome URL) (url : JSValue) :
  (exists b, isValidYouTubeUrl new_URL url = Ok b) /\
  (forall e, new_URL url = Throw e -> isValidYouTubeUrl new_URL url = Ok false).
Proof.
  unfold isValidYouTubeUrl, isValidYouTubeUrl_try. split.
  - destruct (new_URL url) as [urlObj|e]; simpl; [|eauto].
    destruct (negb _); simpl; [eauto|].
    destruct (includes _ _); simpl; eauto.
  - intros e ->. reflexivity.
Qed.

Lemma isValidYouTubeUrl_never_throws_witness :
  sample_new_URL (JStr "not a url") = Throw (ErrorObject "Invalid URL") /\
  isValidYouTubeUrl sample_new_URL (JStr "not a url") = Ok false.
Proof.
  split; [reflexivity|].
  apply (proj2 (isValidYouTubeUrl_never_throws sample_new_URL (JStr "not a url"))
               (ErrorObject "Invalid URL")).
  reflexivity.
Defined.

Lemma isValidYouTubeUrl_returns (new_URL : JSValue -> Outcome URL) (url : JSValue) :
  exists b, isValidYouTubeUrl new_URL url = Ok b.
Proof.
  unfold isValidYouTubeUrl, isValidYouTubeUrl_try.
  destruct (new_URL url) as [urlObj|e]; simpl; [|eauto].
  destruct (negb _); simpl; [eauto|].
  destruct (includes _ _); simpl; eauto.
Qed.

(** C4, as stated, fails: a request whose YouTube URL is missing is
    answered with HTTP 400.  When the URL is missing because the body is
    the JSON [null], or because the body is not JSON at all, reading
    [body.youtubeUrl] or the body itself throws and the route answers
    500. *)
Lemma request_without_url_answered_500 :
  exists details details',
    carries_valid_url sample_new_URL (Ok JNull) = false /\
    response (POST sample_new_URL (JSON_parse_texts []) (Ok JNull)
                   (backend_streaming [backend_downloading]))
    = JsonResponse 500 (JObj [("error", JStr "Failed to process request");
                              ("details", JStr details)]) /\
    carries_valid_url sample_new_URL (Throw (ErrorObject "Unexpected end of JSON input"))
    = false /\
    response (POST sample_new_URL (JSON_parse_texts [])
                   (Throw (ErrorObject "Unexpected end of JSON input"))
                   (backend_streaming [backend_downloading]))
    = JsonResponse 500 (JObj [("error", JStr "Failed to process request");
                              ("details", JStr details')]).
Proof. do 2 eexists. repeat split; reflexivity. Qed.

(** C4 (amended): a request to POST /api/match that does not carry a
    truthy YouTube URL accepted by isValidYouTubeUrl is rejected before
    the pipeline starts: the backend is not called and no progress or
    error event is emitted.  When the body is a JSON value other than
    null (its URL is absent, falsy or refused) the answer is HTTP 400
    with an error body; when the body cannot be read as JSON or is null,
    the answer is HTTP 500 with an error body. *)
Theorem invalid_url_rejected
    (new_URL : JSValue -> Outcome URL) (JSON_parse : string -> Outcome JSValue)
    (request_json : Outcome JSValue) (backend : JSValue -> FetchResult) :
  carries_valid_url new_URL request_json = false ->
  backend_calls (POST new_URL JSON_parse request_json backend) = [] /\
  events (response (POST new_URL JSON_parse request_json backend)) = [] /\
  (readable_body request_json = true ->
   exists msg,
     response (POST new_URL JSON_parse request_json backend)
     = JsonResponse 400 (JObj [("error", JStr msg)])) /\
  (readable_body request_json = false ->
   exists details,
     response (POST new_URL JSON_parse request_json backend)
     = JsonResponse 500 (JObj [("error", JStr "Failed to process request");
                               ("details", JStr details)])).
Proof.
  unfold carries_valid_url, readable_body, POST, POST_try. intros H.
  destruct request_json as [body|e]; cbn [bind].
  - destruct (get_prop body "youtubeUrl") as [youtubeUrl|e]; cbn [bind].
    + destruct (truthy youtubeUrl); cbn [negb andb] in *.
      * destruct (isValidYouTubeUrl_returns new_URL youtubeUrl) as [valid Hv].
        rewrite Hv in *. cbn [bind]. subst valid. cbn [negb].
        repeat split; [intros _; eexists; reflexivity | discriminate].
      * repeat split; [intros _; eexists; reflexivity | discriminate].
    + repeat split; [discriminate | intros _; eexists; reflexivity].
  - repeat split; [discriminate | intros _; eexists; reflexivity].
Qed.

Lemma invalid_url_rejected_witness :
  backend_calls (POST sample_new_URL (JSON_parse_texts [])
                      (Ok (JObj [("youtubeUrl", JStr "not a url")]))
                      (backend_streaming [backend_downloading])) = [] /\
  events (response (POST sample_new_URL (JSON_parse_texts [])
                         (Ok (JObj [("youtubeUrl", JStr "not a url")]))
                         (backend_streaming [backend_downloading]))) = [] /\
  exists msg,
    response (POST sample_new_URL (JSON_parse_texts [])
                   (Ok (JObj [("youtubeUrl", JStr "not a url")]))
                   (backend_streaming [backend_downloading]))
    = JsonResponse 400 (JObj [("error", JStr msg)]).
Proof.
  destruct (invalid_url_rejected sample_new_URL (JSON_parse_texts [])
              (Ok (JObj [("youtubeUrl", JStr "not a url")]))
              (backend_streaming [backend_downloading]) eq_refl)
    as (Hcalls & Hevents & H400 & _).
  split; [exact Hcalls|]. split; [exact Hevents|]. exact (H400 eq_refl).
Defined.

Example missing_url_is_400 :
  response (POST sample_new_URL (JSON_parse_texts []) (Ok (JObj []))
                 (backend_streaming [backend_downloading]))
  = JsonResponse 400 (JObj [("error", JStr "YouTube URL is required")]).
Proof. reflexivity. Qed.

(** A body that cannot be read as JSON, or the JSON [null], is answered
    with HTTP 500; here too nothing is sent to the backend and no event
    is emitted. *)
Lemma unreadable_body_is_500
    (new_URL : JSValue -> Outcome URL) (JSON_parse : string -> Outcome JSValue)
    (request_json : Outcome JSValue) (backend : JSValue -> FetchResult) :
  (exists e, request_json = Throw e) \/ request_json = Ok JNull ->
  exists details,
    POST new_URL JSON_parse request_json backend
    = {| response := JsonResponse 500 (JObj [("error", JStr "Failed to process request");
                                             ("details", JStr details)]);
         backend_calls := [] |}.
Proof.
  intros [[e ->]| ->]; unfold POST; simpl; eauto.
Qed.

(** The stream is opened, and the backend called, only for a URL that is
    truthy and valid. *)
Lemma stream_only_for_valid_url
    (new_URL : JSValue -> Outcome URL) (JSON_parse : string -> Outcome JSValue)
    (request_json : Outcome JSValue) (backend : JSValue -> FetchResult)
    (frames : list JSValue) :
  response (POST new_URL JSON_parse request_json backend) = EventStream frames ->
  exists body youtubeUrl,
    request_json = Ok body /\
    get_prop body "youtubeUrl" = Ok youtubeUrl /\
    truthy youtubeUrl = true /\
    isValidYouTubeUrl new_URL youtubeUrl = Ok true /\
    backend_calls (POST new_URL JSON_parse request_json backend)
    = [JObj [("youtube_url", youtubeUrl)]].
Proof.
  unfold POST, POST_try.
  destruct request_json as [body|e]; simpl; [|discriminate].
  destruct (get_prop body "youtubeUrl") as [youtubeUrl|e] eqn:Hget; simpl; [|discriminate].
  destruct (truthy youtubeUrl) eqn:Ht; simpl; [|discriminate].
  destruct (isValidYouTubeUrl new_URL youtubeUrl) as [[|]|e] eqn:Hv; simpl;
    try discriminate.
  intros _. exists body, youtubeUrl. auto.
Qed.

End Validation.

(* ================================================================= *)
(** ** The songs route *)

Module Songs.
Import JS.
Import MatchRoute.
Import SongsRoute.
Import Statements.
Import JSFacts.
Import Samples.

(** A 200 response holds what the file parses to and its [length]. *)
Lemma GET_200 (JSON_parse : string -> Outcome JSValue) (file : Outcome string)
      (payload : JSValue) :
  GET JSON_parse file = JsonResponse 200 payload ->
  exists songs count,
    payload = JObj [("songs", songs); ("count", count)] /\
    get_length songs = Ok count.
Proof.
  unfold GET. destruct (GET_try JSON_parse file) as [r|[message|v]] eqn:E.
  - intros ->. unfold GET_try in E.
    destruct file as [fileContent|e]; simpl in E; [|discriminate].
    destruct (JSON_parse fileContent) as [songs|e]; simpl in E; [|discriminate].
    destruct (get_length songs) as [count|e] eqn:L; simpl in E; [|discriminate].
    inversion E; subst. eauto.
  - destruct (includes message "ENOENT"); intros H; inversion H.
  - intros H; inversion H.
Qed.

(** C9: in every 200 response of GET /api/songs, the count field equals
    the length of the songs array returned in the same response. *)
Theorem songs_count_is_length
    (JSON_parse : string -> Outcome JSValue) (file : Outcome string)
    (payload : JSValue) (songs : list JSValue) :
  GET JSON_parse file = JsonResponse 200 payload ->
  wire_field payload "songs" = Some (JArr songs) ->
  wire_field payload "count" = Some (num (List.length songs)).
Proof.
  intros H Hs. destruct (GET_200 _ _ _ H) as (v & count & -> & L).
  rewrite wire_field_object in Hs. rewrite wire_field_object. simpl in *.
  destruct v; simpl in Hs; try discriminate.
  inversion Hs; subst. simpl in L. inversion L; subst.
  simpl. now rewrite length_map.
Qed.

Lemma songs_count_is_length_witness :
  GET (JSON_parse_texts [songs_file]) (Ok (json_text songs_file))
  = JsonResponse 200 (JObj [("songs", songs_file); ("count", num 2)]) /\
  wire_field (JObj [("songs", songs_file); ("count", num 2)]) "count" = Some (num 2).
Proof.
  assert (H : GET (JSON_parse_texts [songs_file]) (Ok (json_text songs_file))
              = JsonResponse 200 (JObj [("songs", songs_file); ("count", num 2)]))
    by (vm_compute; reflexivity).
  split; [exact H|].
  exact (songs_count_is_length _ _ _ _ H eq_refl).
Defined.

End Songs.

(* ================================================================= *)
(** ** Confidence tiers *)

Module Confidence.
Import JS.
Import MatchRoute.
Import Types.
Import Page.
Import Matcher.
Import Statements.
Import JSFacts.
Import MatchRouteFacts.
Import Samples.

Local Open Scope Q_scope.

Example gap_020_is_HIGH : classify_confidence 0.20 = HIGH.
Proof. reflexivity. Qed.

Example gap_010_is_MODERATE : classify_confidence 0.10 = MODERATE.
Proof. reflexivity. Qed.

Example gap_005_is_LOW : classify_confidence 0.05 = LOW.
Proof. reflexivity. Qed.

Example gap_00499_is_VERY_LOW : classify_confidence 0.0499 = VERY_LOW.
Proof. reflexivity. Qed.

Example gap_of_two_tracks : classify_confidence (0.80 - 0.55) = HIGH.
Proof. reflexivity. Qed.

Lemma Qle_bool_false (x y : Q) : Qle_bool x y = false <-> y < x.
Proof.
  split; intros H.
  - apply Qnot_le_lt. intros Hle. apply Qle_bool_iff in Hle. congruence.
  - destruct (Qle_bool x y) eqn:E; [|reflexivity].
    apply Qle_bool_iff in E. apply Qlt_not_le in H. contradiction.
Qed.

(** C5: for every gap g the tier is HIGH iff g >= 0.20, MODERATE iff
    0.10 <= g < 0.20, LOW iff 0.05 <= g < 0.10 and VERY_LOW iff
    g < 0.05; the lower edge of each band belongs to it. *)
Theorem confidence_bands (g : Q) :
  (classify_confidence g = HIGH <-> 0.20 <= g) /\
  (classify_confidence g = MODERATE <-> 0.10 <= g /\ g < 0.20) /\
  (classify_confidence g = LOW <-> 0.05 <= g /\ g < 0.10) /\
  (classify_confidence g = VERY_LOW <-> g < 0.05).
Proof.
  unfold classify_confidence.
  destruct (Qle_bool 0.20 g) eqn:E1;
    [apply Qle_bool_iff in E1 | apply Qle_bool_false in E1;
     destruct (Qle_bool 0.10 g) eqn:E2;
       [apply Qle_bool_iff in E2 | apply Qle_bool_false in E2;
        destruct (Qle_bool 0.05 g) eqn:E3;
          [apply Qle_bool_iff in E3 | apply Qle_bool_false in E3]]];
    repeat split; intros; try discriminate; try assumption; try reflexivity;
    try (exfalso; lra);
    repeat match goal with H : _ /\ _ |- _ => destruct H end;
    try (exfalso; lra); lra.
Qed.

(** A larger gap never gives a lower tier. *)
Lemma confidence_monotone (g1 g2 : Q) :
  g1 <= g2 ->
  (tier_rank (classify_confidence g1) <= tier_rank (classify_confidence g2))%nat.
Proof.
  intros H. unfold classify_confidence.
  destruct (Qle_bool 0.20 g1) eqn:A1; destruct (Qle_bool 0.20 g2) eqn:A2;
  destruct (Qle_bool 0.10 g1) eqn:B1; destruct (Qle_bool 0.10 g2) eqn:B2;
  destruct (Qle_bool 0.05 g1) eqn:C1; destruct (Qle_bool 0.05 g2) eqn:C2;
    simpl; try lia; exfalso;
    repeat match goal with
           | H : Qle_bool _ _ = true |- _ => apply Qle_bool_iff in H
           | H : Qle_bool _ _ = false |- _ => apply Qle_bool_false in H
           end; lra.
Qed.

End Confidence.

(* ================================================================= *)
(** ** The result panel of the home page *)

Module ResultView.
Import JS.
Import MatchRoute.
Import Types.
Import Page.
Import Statements.
Import JSFacts.
Import MatchRouteFacts.
Import Samples.

Example very_low_result_is_hidden :
  match events (response (route_exchange [backend_complete "VERY_LOW"])) with
  | [update] =>
      wire_field update "confidence" = Some (JStr "VERY_LOW") /\
      results_section (on_data (wire update) page_waiting) = NoMatchFound
  | _ => False
  end.
Proof. vm_compute. split; reflexivity. Qed.

Example low_result_needs_review :
  match events (response (route_exchange [backend_complete "LOW"])) with
  | [update] =>
      heading (results_section (on_data (wire update) page_waiting))
      = Some "Needs Review" /\
      displayed (results_section (on_data (wire update) page_waiting))
      = [JStr "Wonderwall"; JStr "Oasis"; JStr "LOW"; num 1; num 1]
  | _ => False
  end.
Proof. vm_compute. split; reflexivity. Qed.

(** An error event does not change the page: the [Error] built from it is
    thrown inside the [try] of the line loop and only logged. *)
Lemma on_data_error (data : JSValue) (s : PageState) :
  get_prop data "status" = Ok (JStr "error") -> on_data data s = s.
Proof. intros H. unfold on_data. now rewrite H. Qed.


End ResultView.

(* ================================================================= *)
(** ** More on the match route *)

Module RouteExtras.
Import JS.
Import MatchRoute.
Import Statements.
Import JSFacts.
Import MatchRouteFacts.
Import Samples.
Import MoreSamples.

Lemma split_lines_not_nil (s : string) : split_lines s <> [].
Proof.
  destruct (split_lines_snoc s) as (init & last & ->). now destruct init.
Qed.

Lemma no_newline_cons (c : ascii) (s : string) :
  no_newline (String c s) <-> Ascii.eqb c "010" = false /\ no_newline s.
Proof.
  unfold no_newline. simpl. destruct (Ascii.eqb c "010") eqn:E.
  - split; [|intros [? _]; discriminate].
    intros H. inversion H.
  - destruct (split_lines s) as [|h r] eqn:S; [now apply split_lines_not_nil in S|].
    split.
    + intros H. inversion H; subst. auto.
    + intros [_ H]. inversion H; subst. reflexivity.
Qed.

Lemma no_newline_app (a b : string) :
  no_newline a -> no_newline b -> no_newline (a ++ b).
Proof.
  induction a as [|c a IH]; simpl; [auto|].
  intros Ha Hb. apply no_newline_cons in Ha as [Hc Ha].
  apply no_newline_cons. auto.
Qed.

Lemma received_app (l1 l2 : list string) :
  received (l1 ++ l2) = (received l1 ++ received l2)%string.
Proof.
  induction l1 as [|x l1 IH]; simpl; [reflexivity|].
  now rewrite IH, append_assoc.
Qed.

Lemma append_empty (s : string) : (s ++ "")%string = s.
Proof. induction s; simpl; congruence. Qed.

(** Text after the last newline holds no complete line. *)
Lemma complete_lines_tail (s t : string) :
  no_newline t -> complete_lines (s ++ t) = complete_lines s.
Proof.
  intros Ht. rewrite complete_lines_append.
  rewrite (complete_lines_no_newline (unfinished_line s ++ t)).
  - apply app_nil_r.
  - apply no_newline_app; [apply unfinished_line_no_newline | exact Ht].
Qed.

(** ** Which URLs the route accepts *)

Lemma endsWith_spec (s suf : string) :
  endsWith s suf = true <-> exists p, s = (p ++ suf)%string.
Proof.
  split.
  - induction s as [|c t IH]; cbn [endsWith].
    + rewrite orb_false_r. intros H. apply String.eqb_eq in H. subst. now exists "".
    + intros H. apply orb_true_iff in H as [H|H].
      * apply String.eqb_eq in H. exists "". now rewrite H.
      * destruct (IH H) as [p ->]. now exists (String c p).
  - intros [p ->]. induction p as [|c p IH].
    + destruct suf; cbn [endsWith append]; now rewrite String.eqb_refl.
    + cbn [endsWith append]. rewrite IH. apply orb_true_r.
Qed.

Lemma endsWith_longer (s pre suf : string) :
  endsWith s (pre ++ suf) = true -> endsWith s suf = true.
Proof.
  intros H. apply endsWith_spec in H as [p ->]. apply endsWith_spec.
  exists (p ++ pre)%string. now rewrite append_assoc.
Qed.

(** The entries [www.youtube.com] and [m.youtube.com] of [validDomains]
    add nothing to [youtube.com]. *)
Lemma validDomains_hosts (h : string) :
  existsb (fun domain => String.eqb h domain || endsWith h ("." ++ domain)) validDomains
  = Readings.youtube_host h.
Proof.
  unfold validDomains, Readings.youtube_host. cbn [existsb append].
  apply eq_true_iff_eq. split; intros H; rewrite !orb_true_iff in H.
  - repeat match goal with H : _ \/ _ |- _ => destruct H as [H|H] end;
      try discriminate H;
      try (rewrite H; rewrite ?orb_true_r; reflexivity).
    + apply String.eqb_eq in H. subst h. reflexivity.
    + rewrite (endsWith_longer h ".www" ".youtube.com" H).
      rewrite ?orb_true_r; reflexivity.
    + apply String.eqb_eq in H. subst h. reflexivity.
    + rewrite (endsWith_longer h ".m" ".youtube.com" H).
      rewrite ?orb_true_r; reflexivity.
  - repeat match goal with H : _ \/ _ |- _ => destruct H as [H|H] end;
      rewrite H; rewrite ?orb_true_r; reflexivity.
Qed.

(** isValidYouTubeUrl accepts exactly the URLs that parse, whose host
    (in lower case) is youtube.com, youtu.be or a subdomain of one of
    them, and that name a video: a path longer than [/] when the host
    contains youtu.be; otherwise a [v] parameter, or a path containing
    [/embed/] or [/watch]. *)
Theorem isValidYouTubeUrl_accepts (new_URL : JSValue -> Outcome URL) (url : JSValue) :
  isValidYouTubeUrl new_URL url = Ok true <->
  exists u,
    new_URL url = Ok u /\
    Readings.youtube_host (toLowerCase (hostname u)) = true /\
    (if includes (toLowerCase (hostname u)) "youtu.be"
     then 1 <? String.length (pathname u)
     else searchParams_has u "v" || includes (pathname u) "/embed/"
          || includes (pathname u) "/watch") = true.
Proof.
  unfold isValidYouTubeUrl, isValidYouTubeUrl_try.
  destruct (new_URL url) as [u|e]; cbn [bind try_catch]; cbv zeta.
  - rewrite validDomains_hosts.
    destruct (Readings.youtube_host (toLowerCase (hostname u))) eqn:Hh; cbn [negb].
    + destruct (includes (toLowerCase (hostname u)) "youtu.be") eqn:Hi;
        cbn [try_catch]; split.
      * intros H. injection H as H'. exists u. rewrite Hi, H'. auto.
      * intros (u' & Hu & _ & H). inversion Hu; subst u'. rewrite Hi in H. now rewrite H.
      * intros H. injection H as H'. exists u. rewrite Hi, H'. auto.
      * intros (u' & Hu & _ & H). inversion Hu; subst u'. rewrite Hi in H. now rewrite H.
    + split; [discriminate|]. intros (u' & Hu & H & _). inversion Hu; subst. congruence.
  - split; [discriminate|]. intros (u' & Hu & _). discriminate.
Qed.

Section Route.

Variable new_URL : JSValue -> Outcome URL.
Variable JSON_parse : string -> Outcome JSValue.

(** The events of the stream depend on the text the backend sends and on
    how its stream ends, not on how the text is cut into chunks. *)
Theorem route_events_depend_on_text (r1 r2 : BackendResponse) (s1 s2 : ReadScript) :
  ok r1 = true -> ok r2 = true ->
  body r1 = Some s1 -> body r2 = Some s2 ->
  received (chunks s1) = received (chunks s2) ->
  failure s1 = failure s2 ->
  start JSON_parse (Resolves r1) = start JSON_parse (Resolves r2).
Proof.
  intros Ho1 Ho2 Hb1 Hb2 Ht Hf. unfold start, start_try.
  rewrite Ho1, Ho2, Hb1, Hb2. simpl.
  rewrite !(read_loop_complete_lines JSON_parse _ _ "" eq_refl).
  simpl. now rewrite Ht, Hf.
Qed.

(** What the backend sends after its last newline is never forwarded:
    an event whose line is not ended is lost. *)
Theorem route_drops_unfinished_line (r1 r2 : BackendResponse) (s1 s2 : ReadScript)
        (tail : string) :
  ok r1 = true -> ok r2 = true ->
  body r1 = Some s1 -> body r2 = Some s2 ->
  chunks s2 = chunks s1 ++ [tail] ->
  no_newline tail ->
  failure s1 = failure s2 ->
  start JSON_parse (Resolves r2) = start JSON_parse (Resolves r1).
Proof.
  intros Ho1 Ho2 Hb1 Hb2 Hc Ht Hf. unfold start, start_try.
  rewrite Ho1, Ho2, Hb1, Hb2. simpl.
  rewrite !(read_loop_complete_lines JSON_parse _ _ "" eq_refl).
  simpl. rewrite Hc, received_app. simpl. rewrite append_empty.
  now rewrite complete_lines_tail, Hf.
Qed.

(** The three answers of POST.  It opens the stream exactly when the
    body is readable and holds a truthy URL that isValidYouTubeUrl
    accepts, and then posts that URL to the backend once; any other
    request is answered 400 or 500 and nothing is sent to the backend. *)
Theorem POST_outcomes (request_json : Outcome JSValue) (backend : JSValue -> FetchResult) :
  (forall body youtubeUrl,
      request_json = Ok body ->
      get_prop body "youtubeUrl" = Ok youtubeUrl ->
      truthy youtubeUrl = true ->
      isValidYouTubeUrl new_URL youtubeUrl = Ok true ->
      POST new_URL JSON_parse request_json backend =
      {| response :=
           EventStream (start JSON_parse (backend (JObj [("youtube_url", youtubeUrl)])));
         backend_calls := [JObj [("youtube_url", youtubeUrl)]] |}) /\
  (forall frames,
      response (POST new_URL JSON_parse request_json backend) = EventStream frames ->
      exists body youtubeUrl,
        request_json = Ok body /\
        get_prop body "youtubeUrl" = Ok youtubeUrl /\
        truthy youtubeUrl = true /\
        isValidYouTubeUrl new_URL youtubeUrl = Ok true) /\
  (forall code payload,
      response (POST new_URL JSON_parse request_json backend) = JsonResponse code payload ->
      (code = 400 \/ code = 500) /\
      backend_calls (POST new_URL JSON_parse request_json backend) = [] /\
      exists msg, wire_field payload "error" = Some (JStr msg)).
Proof.
  split; [|split].
  - intros body youtubeUrl -> Hget Ht Hv. unfold POST, POST_try. simpl.
    rewrite Hget. simpl. rewrite Ht. simpl. rewrite Hv. reflexivity.
  - intros frames. unfold POST, POST_try.
    destruct request_json as [body|e]; simpl; [|discriminate].
    destruct (get_prop body "youtubeUrl") as [youtubeUrl|e] eqn:Hget; simpl; [|discriminate].
    destruct (truthy youtubeUrl) eqn:Ht; simpl; [|discriminate].
    destruct (isValidYouTubeUrl new_URL youtubeUrl) as [[|]|e] eqn:Hv; simpl;
      try discriminate.
    intros _. exists body, youtubeUrl. auto.
  - intros code payload. unfold POST, POST_try.
    destruct request_json as [body|e]; simpl.
    2:{ intros H; inversion H; subst. split; [auto|]. split; [reflexivity|].
        eexists; reflexivity. }
    destruct (get_prop body "youtubeUrl") as [youtubeUrl|e] eqn:Hget; simpl.
    2:{ intros H; inversion H; subst. split; [auto|]. split; [reflexivity|].
        eexists; reflexivity. }
    destruct (truthy youtubeUrl) eqn:Ht; simpl.
    2:{ intros H; inversion H; subst. split; [auto|]. split; [reflexivity|].
        eexists; reflexivity. }
    destruct (isValidYouTubeUrl new_URL youtubeUrl) as [[|]|e] eqn:Hv; simpl;
      intros H; inversion H; subst;
      (split; [auto|]; split; [reflexivity|]; eexists; reflexivity).
Qed.

End Route.

Lemma route_events_depend_on_text_witness :
  start (JSON_parse_texts [backend_error])
        (Resolves (streamed ["da"; ("ta: " ++ json_text backend_error)%string; newline; newline]))
  = start (JSON_parse_texts [backend_error])
          (Resolves (streamed [data_line backend_error])).
Proof.
  apply (route_events_depend_on_text (JSON_parse_texts [backend_error])
           (streamed ["da"; ("ta: " ++ json_text backend_error)%string; newline; newline])
           (streamed [data_line backend_error])
           (script_of ["da"; ("ta: " ++ json_text backend_error)%string; newline; newline])
           (script_of [data_line backend_error])
           eq_refl eq_refl eq_refl eq_refl).
  - vm_compute. reflexivity.
  - reflexivity.
Defined.

Lemma route_drops_unfinished_line_witness :
  start (JSON_parse_texts [backend_downloading; backend_error])
        (Resolves (streamed ([data_line backend_downloading]
                             ++ [("data: " ++ json_text backend_error)%string])))
  = start (JSON_parse_texts [backend_downloading; backend_error])
          (Resolves (streamed [data_line backend_downloading])).
Proof.
  apply (route_drops_unfinished_line (JSON_parse_texts [backend_downloading; backend_error])
           (streamed [data_line backend_downloading])
           (streamed ([data_line backend_downloading]
                      ++ [("data: " ++ json_text backend_error)%string]))
           (script_of [data_line backend_downloading])
           (script_of ([data_line backend_downloading]
                       ++ [("data: " ++ json_text backend_error)%string]))
           ("data: " ++ json_text backend_error)%string
           eq_refl eq_refl eq_refl eq_refl eq_refl).
  - vm_compute. reflexivity.
  - reflexivity.
Defined.

Lemma POST_outcomes_witness :
  POST sample_new_URL (JSON_parse_texts [backend_error]) sample_request
       (backend_streaming [backend_error])
  = {| response :=
         EventStream (start (JSON_parse_texts [backend_error])
                            (backend_streaming [backend_error]
                               (JObj [("youtube_url", JStr watch_url)])));
       backend_calls := [JObj [("youtube_url", JStr watch_url)]] |}.
Proof.
  apply (proj1 (POST_outcomes sample_new_URL (JSON_parse_texts [backend_error])
                  sample_request (backend_streaming [backend_error]))
               (JObj [("youtubeUrl", JStr watch_url)]) (JStr watch_url));
    reflexivity.
Defined.

End RouteExtras.

(* ================================================================= *)
(** ** More on the songs route and its hook *)

Module SongsExtras.
Import JS.
Import MatchRoute.
Import SongsRoute.
Import SongsHook.
Import Transport.
Import Statements.
Import JSFacts.
Import Samples.

(** GET answers 200 exactly when the file can be read and parses to a
    value other than null: it does not check that the value is an array,
    so a file holding an object or a number is served as the songs. *)
Theorem GET_200_iff (JSON_parse : string -> Outcome JSValue) (file : Outcome string) :
  (exists payload, GET JSON_parse file = JsonResponse 200 payload) <->
  (exists content v,
      file = Ok content /\ JSON_parse content = Ok v /\ v <> JNull /\ v <> JUndefined).
Proof.
  split.
  - intros [payload H]. unfold GET in H.
    destruct (GET_try JSON_parse file) as [r|[message|x]] eqn:E.
    + unfold GET_try in E.
      destruct file as [content|e]; simpl in E; [|discriminate].
      destruct (JSON_parse content) as [v|e] eqn:P; simpl in E; [|discriminate].
      exists content, v. repeat split; auto; intros ->; discriminate.
    + destruct (includes message "ENOENT"); inversion H.
    + inversion H.
  - intros (content & v & -> & P & Hn & Hu). unfold GET, GET_try. simpl. rewrite P. simpl.
    destruct v; try congruence; simpl; eauto.
Qed.

Section FetchSongs.

Variable ToString : JSValue -> string.

(** When fetchSongs is over, loading is off, and either the error is
    null and the songs are the [songs] member of a 2xx response, or the
    songs are emptied and the error is a message. *)
Theorem fetchSongs_end (fetched : Fetched) (s : SongsState) :
  loading (fetchSongs ToString fetched s) = false /\
  ((error (fetchSongs ToString fetched s) = JNull /\
    exists code data,
      fetched = Response code (Ok data) /\ ok code = true /\
      get_prop data "songs" = Ok (songs (fetchSongs ToString fetched s)))
   \/ (songs (fetchSongs ToString fetched s) = JArr [] /\
       exists msg, error (fetchSongs ToString fetched s) = JStr msg)).
Proof.
  split; [reflexivity|].
  unfold fetchSongs, fetchSongs_try.
  destruct fetched as [e|code [data|e]]; simpl.
  - right. eauto.
  - destruct (ok code) eqn:Hok; simpl.
    + destruct (get_prop data "songs") as [v|e] eqn:Hs; simpl.
      * left. split; [reflexivity|]. exists code, data. auto.
      * right. eauto.
    + destruct (get_prop data "error"); simpl; right; eauto.
  - destruct (ok code); simpl; right; eauto.
Qed.

(** The hook on the answer of the route: after 200 its songs are what
    the file holds and its error is null; after 404 or 500 the songs are
    empty and its error is the [error] member of the route's answer,
    'Songs file not found' or 'Failed to load songs'. *)
Theorem songs_hook_after_GET
    (JSON_parse : string -> Outcome JSValue) (file : Outcome string)
    (s : SongsState) (fetched : Fetched) :
  (forall str, ToString (JStr str) = str) ->
  songs_fetch (GET JSON_parse file) = Some fetched ->
  loading (fetchSongs ToString fetched s) = false /\
  ((exists content v,
       file = Ok content /\ JSON_parse content = Ok v /\
       songs (fetchSongs ToString fetched s) = wire v /\
       error (fetchSongs ToString fetched s) = JNull)
   \/ (exists payload,
          GET JSON_parse file = JsonResponse 404 payload /\
          songs (fetchSongs ToString fetched s) = JArr [] /\
          error (fetchSongs ToString fetched s) = JStr "Songs file not found")
   \/ (exists payload,
          GET JSON_parse file = JsonResponse 500 payload /\
          songs (fetchSongs ToString fetched s) = JArr [] /\
          error (fetchSongs ToString fetched s) = JStr "Failed to load songs")).
Proof.
  intros HS Hf. split; [reflexivity|].
  unfold GET in *.
  destruct (GET_try JSON_parse file) as [r|[message|x]] eqn:E.
  - left. unfold GET_try in E.
    destruct file as [content|e]; simpl in E; [|discriminate].
    destruct (JSON_parse content) as [v|e] eqn:P; simpl in E; [|discriminate].
    destruct (get_length v) as [count|e] eqn:L; simpl in E; [|discriminate].
    inversion E; subst r. clear E.
    remember (JObj [("songs", v); ("count", count)]) as payload eqn:Hp.
    unfold songs_fetch in Hf. injection Hf as Hf. subst fetched.
    exists content, v. split; [reflexivity|]. split; [exact P|].
    unfold fetchSongs, fetchSongs_try.
    replace (ok 200) with true by reflexivity. cbn [negb bind].
    rewrite get_prop_wire. subst payload. simpl. split; reflexivity.
  - destruct (includes message "ENOENT") eqn:Hm.
    + right; left. eexists. split; [reflexivity|].
      simpl in Hf. inversion Hf; subst fetched.
      cbv. rewrite HS. split; reflexivity.
    + right; right. eexists. split; [reflexivity|].
      simpl in Hf. inversion Hf; subst fetched.
      cbv. rewrite HS. split; reflexivity.
  - right; right. eexists. split; [reflexivity|].
    simpl in Hf. inversion Hf; subst fetched.
    cbv. rewrite HS. split; reflexivity.
Qed.

End FetchSongs.

Lemma songs_hook_after_GET_witness :
  songs_fetch (GET (JSON_parse_texts [songs_file]) (Throw (ErrorObject "ENOENT: no such file")))
  = Some (Response 404 (Ok (JObj [("error", JStr "Songs file not found");
                                   ("details", JStr "studio_songs.json could not be located")]))) /\
  loading (fetchSongs ToString_simple
             (Response 404 (Ok (JObj [("error", JStr "Songs file not found");
                                      ("details", JStr "studio_songs.json could not be located")])))
             initial) = false.
Proof.
  split; [reflexivity|].
  apply (songs_hook_after_GET ToString_simple (JSON_parse_texts [songs_file])
           (Throw (ErrorObject "ENOENT: no such file")) initial _ (fun _ => eq_refl) eq_refl).
Defined.

End SongsExtras.

(* ================================================================= *)
(** ** More on the stream hook *)

Module HookExtras.
Import JS.
Import MatchRoute.
Import Hook.
Import Readings.
Import Statements.
Import JSFacts.
Import HookFacts.
Import Samples.
Import MoreSamples.

Lemma up_to_terminal_app (a b : list JSValue) :
  up_to_terminal (a ++ b) =
  if existsb terminal a then up_to_terminal a else a ++ up_to_terminal b.
Proof.
  induction a as [|u a IH]; simpl; [reflexivity|].
  destruct (terminal u); simpl; [reflexivity|]. rewrite IH.
  now destruct (existsb terminal a).
Qed.

Lemma up_to_terminal_none (a : list JSValue) :
  existsb terminal a = false -> up_to_terminal a = a.
Proof.
  intros H. rewrite <- (app_nil_r a) at 1. rewrite up_to_terminal_app, H.
  simpl. apply app_nil_r.
Qed.

Lemma follows_nil (r : Run) : cancelled r = false -> follows r r [].
Proof.
  intros H. unfold follows. simpl. rewrite app_nil_r.
  repeat split; auto. congruence.
Qed.

Lemma follows_trans (r0 r1 r2 : Run) (us vs : list JSValue) :
  follows r0 r1 us -> existsb terminal us = false -> follows r1 r2 vs ->
  follows r0 r2 (us ++ vs).
Proof.
  intros (P1 & C1 & E1 & L1 & N1) Hus (P2 & C2 & E2 & L2 & N2).
  specialize (E1 Hus). destruct E1 as [E1 S1].
  unfold follows. rewrite up_to_terminal_app, existsb_app, Hus. simpl.
  rewrite (up_to_terminal_none us Hus) in *.
  split; [rewrite P2, P1; now rewrite app_assoc|].
  split; [exact C2|].
  split; [intros H; destruct (E2 H); split; congruence|].
  split.
  - intros Hne. destruct vs as [|v vs].
    + simpl. rewrite app_nil_r in *. rewrite (N2 eq_refl). now apply L1.
    + rewrite (L2 ltac:(discriminate)).
      assert (Hne' : up_to_terminal (v :: vs) <> [])
        by (simpl; destruct (terminal v); discriminate).
      destruct (up_to_terminal (v :: vs)) as [|w ws] using rev_ind; [contradiction|].
      rewrite app_assoc, !last_last. reflexivity.
  - intros H. apply app_eq_nil in H as [-> ->]. rewrite (N2 eq_refl). now apply N1.
Qed.

Lemma follows_stop (r0 r : Run) (us vs : list JSValue) :
  follows r0 r us -> existsb terminal us = true -> follows r0 r (us ++ vs).
Proof.
  intros (P & C & E & L & N) Ht.
  assert (Hne : us <> []) by (intros ->; discriminate).
  unfold follows. rewrite up_to_terminal_app, existsb_app, Ht. simpl.
  split; [exact P|]. split; [now rewrite C|]. split; [discriminate|].
  split; [intros _; now apply L|].
  intros H. apply app_eq_nil in H as [H _]. contradiction.
Qed.

Section StartMatch.

Variable JSON_parse : string -> Outcome JSValue.
Variable ToString : JSValue -> string.

Lemma on_data_follows (line : string) (r : Run) :
  cancelled r = false ->
  let trimmedLine := trim line in
  negb (truthy (JStr trimmedLine)) || negb (startsWith trimmedLine "data: ") = false ->
  follows r (fst (on_data JSON_parse (substring_from 6 trimmedLine) r))
          (parsed_update JSON_parse line) /\
  snd (on_data JSON_parse (substring_from 6 trimmedLine) r)
  = existsb terminal (parsed_update JSON_parse line).
Proof.
  intros Hc trimmedLine Hd. unfold parsed_update. fold trimmedLine. rewrite Hd.
  unfold on_data.
  destruct (JSON_parse (substring_from 6 trimmedLine)) as [update|e].
  2:{ split; [now apply follows_nil | reflexivity]. }
  unfold follows. cbn [existsb up_to_terminal]. rewrite orb_false_r.
  unfold terminal.
  destruct (get_prop update "status") as [st|e] eqn:Est.
  - destruct (strict_eq_str st "complete" || strict_eq_str st "error") eqn:Et.
    + destruct (strict_eq_str st "error") eqn:Ee.
      * destruct (get_prop_twice _ _ "error" _ Est) as [x ->]. simpl.
        repeat split; auto; try discriminate.
      * simpl. repeat split; auto; try discriminate.
    + simpl. repeat split; auto; try discriminate.
  - simpl. repeat split; auto; try discriminate.
Qed.

Lemma for_lines_follows (lines : list string) (r : Run) :
  cancelled r = false ->
  follows r (fst (for_lines JSON_parse lines r)) (flat_map (parsed_update JSON_parse) lines) /\
  snd (for_lines JSON_parse lines r)
  = existsb terminal (flat_map (parsed_update JSON_parse) lines).
Proof.
  revert r. induction lines as [|line rest IH]; intros r Hc.
  - split; [now apply follows_nil | reflexivity].
  - cbn [for_lines flat_map].
    destruct (negb (truthy (JStr (trim line))) || negb (startsWith (trim line) "data: "))
      eqn:Hd.
    + assert (Hp : parsed_update JSON_parse line = [])
        by (unfold parsed_update; now rewrite Hd).
      rewrite Hp. simpl. now apply IH.
    + destruct (on_data_follows line r Hc Hd) as [Hf Hs].
      destruct (on_data JSON_parse (substring_from 6 (trim line)) r) as [r' stop].
      simpl in Hf, Hs. subst stop. rewrite existsb_app.
      destruct (existsb terminal (parsed_update JSON_parse line)) eqn:Ht.
      * simpl. split; [|reflexivity]. now apply follows_stop.
      * simpl. destruct Hf as (P & C & E & L & N).
        assert (Hc' : cancelled r' = false) by congruence.
        destruct (IH r' Hc') as [Hf' Hs']. split; [|exact Hs'].
        eapply follows_trans; eauto. unfold follows. auto.
Qed.

Lemma read_loop_follows (pending : list string) (ending : option Thrown)
      (buffer : string) (r : Run) :
  cancelled r = false -> no_newline buffer ->
  let us := parsed_updates JSON_parse (buffer ++ received pending) in
  follows r (setIsStreaming (isStreaming (hook r))
               (fst (read_loop JSON_parse pending ending buffer r))) us /\
  snd (read_loop JSON_parse pending ending buffer r)
  = (if existsb terminal us then None else ending) /\
  (snd (read_loop JSON_parse pending ending buffer r) = None ->
   isStreaming (hook (fst (read_loop JSON_parse pending ending buffer r))) = false).
Proof.
  unfold parsed_updates.
  revert buffer r. induction pending as [|value rest IH]; intros buffer r Hc Hb.
  - cbn [read_loop]. change (received []) with "". rewrite Hc, RouteExtras.append_empty.
    rewrite (complete_lines_no_newline buffer Hb). simpl.
    destruct ending as [e|]; simpl.
    + split; [|split; [reflexivity|discriminate]].
      destruct r as [[cu st er] ca pr]. now apply follows_nil.
    + split; [|split; reflexivity].
      destruct r as [[cu st er] ca pr]. now apply follows_nil.
  - cbn [read_loop]. change (received (value :: rest)) with (value ++ received rest)%string.
    rewrite Hc.
    rewrite <- append_assoc, complete_lines_append, flat_map_app.
    assert (Hcl : complete_lines (buffer ++ value)
                  = fst (pop (split_lines (buffer ++ value)))) by reflexivity.
    assert (Hul : unfinished_line (buffer ++ value)
                  = match snd (pop (split_lines (buffer ++ value))) with
                    | Some l => l
                    | None => ""
                    end) by reflexivity.
    pose proof (unfinished_line_no_newline (buffer ++ value)) as Hl.
    rewrite Hul in Hl. rewrite Hcl, Hul. clear Hcl Hul.
    destruct (pop (split_lines (buffer ++ value))) as [lines last]. cbn [fst snd] in *.
    destruct (for_lines_follows lines r Hc) as [Hf Hs].
    set (r1 := fst (for_lines JSON_parse lines r)) in *.
    rewrite existsb_app.
    destruct (existsb terminal (flat_map (parsed_update JSON_parse) lines)) eqn:Ht.
    + destruct Hf as (Pf & Cf & Ef & Lf & Nf).
      assert (Hstop : read_loop JSON_parse rest ending
                        (match last with Some l => l | None => "" end) r1
                      = (setIsStreaming false r1, None)).
      { destruct rest; simpl; now rewrite Cf, Ht. }
      rewrite Hstop. simpl. split; [|split; reflexivity].
      apply follows_stop; [|exact Ht].
      unfold follows. simpl.
      split; [exact Pf|]. split; [exact Cf|].
      split; [intros H; rewrite H in Ht; discriminate|]. auto.
    + destruct Hf as (Pf & Cf & Ef & Lf & Nf).
      assert (Hc1 : cancelled r1 = false) by congruence.
      destruct (IH _ r1 Hc1 Hl) as (Hf' & Hs' & Hd'). simpl.
      split; [|split; [exact Hs' | exact Hd']].
      destruct (Ef Ht) as [Ee Es]. rewrite Es in Hf'.
      eapply follows_trans; [| exact Ht | exact Hf'].
      unfold follows. auto.
Qed.

(** Whatever happens, startMatch ends with isStreaming off. *)
Theorem startMatch_ends_streaming (fetched : Fetched) :
  isStreaming (hook (startMatch JSON_parse ToString fetched)) = false.
Proof.
  unfold startMatch, startMatch_try.
  destruct fetched as [e|code errorData| |script]; try reflexivity.
  - destruct (bind errorData _); reflexivity.
  - pose proof (read_loop_follows (chunks script) (failure script) ""
                  {| hook := {| currentUpdate := JNull; isStreaming := true; error := JNull |};
                     cancelled := false; processed := [] |} eq_refl eq_refl) as (_ & _ & Hd).
    destruct (read_loop _ _ _ _ _) as [r' [e|]]; [reflexivity|].
    now apply Hd.
Qed.

(** The updates the hook processes are those of the complete lines of
    the text received, in order, up to the first terminal one: they do
    not depend on how the text is cut into chunks. *)
Theorem hook_processes_up_to_terminal (script : ReadScript) :
  processed (startMatch JSON_parse ToString (Body script))
  = up_to_terminal (parsed_updates JSON_parse (received (chunks script))).
Proof.
  unfold startMatch, startMatch_try.
  pose proof (read_loop_follows (chunks script) (failure script) ""
                {| hook := {| currentUpdate := JNull; isStreaming := true; error := JNull |};
                   cancelled := false; processed := [] |} eq_refl eq_refl) as (Hf & _ & _).
  destruct (read_loop _ _ _ _ _) as [r' thrown]. destruct Hf as (Hp & _).
  simpl in Hp. now destruct thrown.
Qed.

(** A failing read is reported exactly when no terminal event came
    before it: without a terminal event the hook's error is the message
    of the failure ([null] when the stream just ends), the reader is not
    cancelled and the current update is the last one received. *)
Theorem hook_without_terminal (script : ReadScript) :
  existsb terminal (parsed_updates JSON_parse (received (chunks script))) = false ->
  error (hook (startMatch JSON_parse ToString (Body script)))
  = match failure script with
    | None => JNull
    | Some e => JStr (message_or e "Unknown error")
    end /\
  cancelled (startMatch JSON_parse ToString (Body script)) = false /\
  currentUpdate (hook (startMatch JSON_parse ToString (Body script)))
  = last_update (parsed_updates JSON_parse (received (chunks script))).
Proof.
  intros Hn. unfold startMatch, startMatch_try.
  pose proof (read_loop_follows (chunks script) (failure script) ""
                {| hook := {| currentUpdate := JNull; isStreaming := true; error := JNull |};
                   cancelled := false; processed := [] |} eq_refl eq_refl) as (Hf & Hs & _).
  simpl in Hf, Hs. rewrite Hn in Hs.
  destruct (read_loop _ _ _ _ _) as [r' thrown]. simpl in Hs. subst thrown.
  destruct Hf as (_ & Hc & He & Hl & Hnil). rewrite Hn in *.
  destruct (He eq_refl) as [He' _]. simpl in He', Hc, Hl, Hnil.
  assert (Hcur : currentUpdate (hook r')
                 = last_update (parsed_updates JSON_parse (received (chunks script)))).
  { unfold last_update.
    destruct (parsed_updates JSON_parse (received (chunks script))) as [|u us] eqn:Hu.
    - now apply Hnil.
    - rewrite Hl by discriminate. rewrite <- Hu in *. now rewrite up_to_terminal_none. }
  destruct (failure script) as [e|]; simpl; auto.
Qed.

End StartMatch.

(** ** The hook on the answers of the route *)

Lemma split_lines_line (s t : string) :
  no_newline s -> split_lines (s ++ newline ++ t) = s :: split_lines t.
Proof.
  induction s as [|c s IH]; intros Hs.
  - reflexivity.
  - apply RouteExtras.no_newline_cons in Hs as [Hc Hs].
    cbn [append split_lines]. rewrite Hc. change (s ++ String "010" t)%string
      with (s ++ newline ++ t)%string. now rewrite (IH Hs).
Qed.

Lemma complete_lines_line (s t : string) :
  no_newline s -> complete_lines (s ++ newline ++ t) = s :: complete_lines t.
Proof.
  intros Hs. pose proof (split_lines_line s t Hs) as H.
  rewrite (split_lines_decompose t) in H.
  change (s :: complete_lines t ++ [unfinished_line t])
    with ((s :: complete_lines t) ++ [unfinished_line t]) in H.
  now apply split_lines_inv in H.
Qed.

(** The hook's test for a terminal update, on an update read back, is the
    status of the update on the wire. *)
Lemma terminal_wire (u : JSValue) : terminal (wire u) = is_terminal u.
Proof.
  unfold terminal, is_terminal, has_status. rewrite get_prop_wire.
  destruct u; try reflexivity.
  rewrite wire_field_object. simpl.
  destruct (lookup "status" fields) as [x|]; [|reflexivity].
  destruct x; reflexivity.
Qed.

Lemma startsWith_append (p s : string) : startsWith (p ++ s) p = true.
Proof.
  unfold startsWith. induction p as [|c p IH]; cbn [append String.prefix].
  - now destruct s.
  - destruct (ascii_dec c c) as [_|Hc]; [exact IH | now elim Hc].
Qed.

Section Wire.

Variable JSON_stringify : JSValue -> string.
Variable JSON_parse : string -> Outcome JSValue.
Variable ToString : JSValue -> string.

Lemma parsed_updates_sse (frames : list JSValue) :
  Forall (serialisable JSON_stringify JSON_parse) frames ->
  parsed_updates JSON_parse (Transport.sse_text JSON_stringify frames) = map wire frames.
Proof.
  unfold parsed_updates, Transport.sse_text.
  induction frames as [|u frames IH]; intros H; [reflexivity|].
  inversion H as [|? ? (Hn & Ht & Hp) H']; subst.
  cbn [map fold_right]. unfold Transport.sse_frame at 1.
  rewrite !append_assoc.
  change ("data: " ++ JSON_stringify u ++ newline ++ newline ++ ?x)%string
    with ("data: " ++ JSON_stringify u ++ newline ++ newline ++ x)%string.
  assert (Hd : no_newline ("data: " ++ JSON_stringify u)).
  { apply RouteExtras.no_newline_app; [reflexivity | exact Hn]. }
  rewrite <- (append_assoc "data: " (JSON_stringify u)).
  rewrite (complete_lines_line _ _ Hd).
  rewrite (complete_lines_line "" _ eq_refl : complete_lines (newline ++ _) = _).
  cbn [flat_map]. rewrite (IH H').
  assert (H1 : parsed_update JSON_parse ("data: " ++ JSON_stringify u) = [wire u]).
  { unfold parsed_update. rewrite Ht. cbv zeta.
    rewrite startsWith_append.
    change (substring_from 6 ("data: " ++ JSON_stringify u)) with (JSON_stringify u).
    change (truthy (JStr ("data: " ++ JSON_stringify u))) with true.
    cbn [negb orb]. now rewrite Hp. }
  rewrite H1. reflexivity.
Qed.

(** The hook on a stream of the route: whatever the chunks its text
    arrives in, the hook processes the updates the route enqueued, as
    they are on the wire and in order, up to the first terminal one. *)
Theorem hook_reads_route_stream (frames : list JSValue) (script : ReadScript) :
  Forall (serialisable JSON_stringify JSON_parse) frames ->
  received (chunks script) = Transport.sse_text JSON_stringify frames ->
  processed (startMatch JSON_parse ToString (Body script))
  = up_to_terminal (map wire frames).
Proof.
  intros Hf Ht. unfold startMatch, startMatch_try.
  pose proof (read_loop_follows JSON_parse (chunks script) (failure script) ""
                {| hook := {| currentUpdate := JNull; isStreaming := true; error := JNull |};
                   cancelled := false; processed := [] |} eq_refl eq_refl) as (Hp & _ & _).
  destruct (read_loop _ _ _ _ _) as [r' thrown]. destruct Hp as (Hp & _).
  change ("" ++ received (chunks script))%string with (received (chunks script)) in Hp.
  rewrite Ht, (parsed_updates_sse _ Hf) in Hp. simpl in Hp. now destruct thrown.
Qed.

(** The hook on a refusal of the route: its error is the [error] member
    of the route's 400 or 500 answer, nothing is processed and streaming
    is off. *)
Theorem hook_shows_route_refusal
    (new_URL : JSValue -> Outcome URL) (route_parse : string -> Outcome JSValue)
    (request_json : Outcome JSValue) (backend : JSValue -> FetchResult)
    (fetched : Fetched) :
  (forall str, ToString (JStr str) = str) ->
  Transport.rejected_fetch (response (POST new_URL route_parse request_json backend))
  = Some fetched ->
  exists code payload msg,
    response (POST new_URL route_parse request_json backend) = JsonResponse code payload /\
    wire_field payload "error" = Some (JStr msg) /\
    error (hook (startMatch JSON_parse ToString fetched)) = JStr msg /\
    isStreaming (hook (startMatch JSON_parse ToString fetched)) = false /\
    currentUpdate (hook (startMatch JSON_parse ToString fetched)) = JNull /\
    processed (startMatch JSON_parse ToString fetched) = [].
Proof.
  intros HS. unfold POST, POST_try.
  assert (Hcase : forall code msg rest,
             (code = 400 \/ code = 500) -> msg <> "" ->
             Transport.rejected_fetch (JsonResponse code (JObj (("error", JStr msg) :: rest)))
             = Some fetched ->
             wire_field (JObj (("error", JStr msg) :: rest)) "error" = Some (JStr msg) /\
             error (hook (startMatch JSON_parse ToString fetched)) = JStr msg /\
             isStreaming (hook (startMatch JSON_parse ToString fetched)) = false /\
             currentUpdate (hook (startMatch JSON_parse ToString fetched)) = JNull /\
             processed (startMatch JSON_parse ToString fetched) = []).
  { intros code msg rest Hcode Hmsg Hf.
    assert (Hw : wire_field (JObj (("error", JStr msg) :: rest)) "error" = Some (JStr msg))
      by (rewrite wire_field_object; reflexivity).
    split; [exact Hw|].
    assert (Hfetched : fetched
                       = NotOk code (Ok (wire (JObj (("error", JStr msg) :: rest))))).
    { destruct Hcode; subst code; unfold Transport.rejected_fetch in Hf;
        cbn [Nat.leb andb] in Hf;
        [replace ((200 <=? 400) && (400 <=? 299)) with false in Hf by reflexivity
        |replace ((200 <=? 500) && (500 <=? 299)) with false in Hf by reflexivity];
        now injection Hf as <-. }
    subst fetched. unfold startMatch, startMatch_try. cbn [bind].
    rewrite get_prop_wire. cbn [get_prop lookup bind]. rewrite String.eqb_refl.
    cbn [wire js_or truthy]. destruct msg as [|c msg]; [contradiction|].
    change (js_or (JStr (String c msg))
                  (JStr ("HTTP error! status: " ++ nat_to_string code)))
      with (JStr (String c msg)).
    rewrite HS. repeat split. }
  destruct request_json as [body|e]; cbn [bind].
  2:{ intros Hf. do 3 eexists. split; [reflexivity|].
      apply (Hcase 500); auto. discriminate. }
  destruct (get_prop body "youtubeUrl") as [youtubeUrl|e]; cbn [bind].
  2:{ intros Hf. do 3 eexists. split; [reflexivity|].
      apply (Hcase 500); auto. discriminate. }
  destruct (negb (truthy youtubeUrl)).
  { intros Hf. do 3 eexists. split; [reflexivity|].
    apply (Hcase 400); auto. discriminate. }
  destruct (isValidYouTubeUrl new_URL youtubeUrl) as [valid|e]; cbn [bind].
  2:{ intros Hf. do 3 eexists. split; [reflexivity|].
      apply (Hcase 500); auto. discriminate. }
  destruct (negb valid).
  { intros Hf. do 3 eexists. split; [reflexivity|].
    apply (Hcase 400); auto. discriminate. }
  discriminate.
Qed.

End Wire.

Lemma hook_without_terminal_witness :
  error (hook (startMatch (JSON_parse_texts [route_downloading_update]) ToString_simple
                 (Body {| chunks := [data_line route_downloading_update];
                          failure := Some (ErrorObject "network error") |})))
  = JStr "network error".
Proof.
  apply (hook_without_terminal (JSON_parse_texts [route_downloading_update]) ToString_simple
           {| chunks := [data_line route_downloading_update];
              failure := Some (ErrorObject "network error") |}).
  vm_compute. reflexivity.
Defined.

Lemma hook_reads_route_stream_witness :
  processed (startMatch (JSON_parse_texts route_frames) ToString_simple
               (Body route_frames_script))
  = [route_downloading_update; route_error_update].
Proof.
  change [route_downloading_update; route_error_update]
    with (up_to_terminal (map wire route_frames)).
  apply (hook_reads_route_stream json_text (JSON_parse_texts route_frames) ToString_simple
           route_frames route_frames_script).
  - repeat constructor.
  - reflexivity.
Defined.

Lemma hook_shows_route_refusal_witness :
  exists code payload msg,
    response (POST sample_new_URL (JSON_parse_texts []) other_site_request
                   (backend_streaming []))
    = JsonResponse code payload /\
    wire_field payload "error" = Some (JStr msg) /\
    error (hook (startMatch (JSON_parse_texts []) ToString_simple
                   (NotOk 400 (Ok (JObj [("error", JStr "Invalid YouTube URL format")])))))
    = JStr msg /\
    isStreaming (hook (startMatch (JSON_parse_texts []) ToString_simple
                   (NotOk 400 (Ok (JObj [("error", JStr "Invalid YouTube URL format")])))))
    = false /\
    currentUpdate (hook (startMatch (JSON_parse_texts []) ToString_simple
                   (NotOk 400 (Ok (JObj [("error", JStr "Invalid YouTube URL format")])))))
    = JNull /\
    processed (startMatch (JSON_parse_texts []) ToString_simple
                 (NotOk 400 (Ok (JObj [("error", JStr "Invalid YouTube URL format")]))))
    = [].
Proof.
  apply (hook_shows_route_refusal (JSON_parse_texts []) ToString_simple
           sample_new_URL (JSON_parse_texts []) other_site_request (backend_streaming [])
           (NotOk 400 (Ok (JObj [("error", JStr "Invalid YouTube URL format")])))).
  - reflexivity.
  - reflexivity.
Defined.

End HookExtras.

(* ================================================================= *)
(** ** More on the page *)

Module PageExtras.
Import JS.
Import MatchRoute.
Import Page.
Import HomePage.
Import Statements.
Import Readings.
Import Samples.
Import MoreSamples.
Import JSFacts.
Import MatchRouteFacts.

(** *** The regular expression *)

Lemma append_empty_inv (s1 s2 : string) : (s1 ++ s2)%string = "" -> s1 = "" /\ s2 = "".
Proof. destruct s1; simpl; [auto | discriminate]. Qed.

Lemma Matches_nullable (r : regex) : nullable r = true <-> Matches r "".
Proof.
  split.
  - induction r; simpl; intros H; try discriminate.
    + constructor.
    + apply andb_true_iff in H as [H1 H2].
      change "" with ("" ++ "")%string. constructor; auto.
    + apply orb_true_iff in H as [H|H]; [apply MAltL | apply MAltR]; auto.
    + constructor.
  - intros H. remember "" as s eqn:Es.
    induction H; simpl; try discriminate; auto.
    + apply append_empty_inv in Es as [-> ->].
      rewrite IHMatches1, IHMatches2; auto.
    + rewrite IHMatches; auto.
    + rewrite IHMatches; auto. apply orb_true_r.
Qed.

Lemma Matches_deriv_sound (c : ascii) (r : regex) :
  forall s, Matches (deriv c r) s -> Matches r (String c s).
Proof.
  induction r; simpl; intros s H.
  - inversion H.
  - inversion H.
  - destruct (p c) eqn:Hp; inversion H; subst. now constructor.
  - destruct (nullable r1) eqn:Hn.
    + inversion H; subst.
      * match goal with Hs : Matches (Seq _ _) _ |- _ => inversion Hs; subst end.
        change (String c (s1 ++ s2)) with (String c s1 ++ s2)%string.
        constructor; auto.
      * change (String c s) with ("" ++ String c s)%string.
        constructor; [now apply Matches_nullable | auto].
    + inversion H; subst.
      change (String c (s1 ++ s2)) with (String c s1 ++ s2)%string.
      constructor; auto.
  - inversion H; subst; [apply MAltL | apply MAltR]; auto.
  - inversion H; subst.
    change (String c (s1 ++ s2)) with (String c s1 ++ s2)%string.
    constructor; auto.
Qed.

Lemma Matches_deriv_complete (r : regex) (w : string) :
  Matches r w -> forall c s, w = String c s -> Matches (deriv c r) s.
Proof.
  induction 1 as [|p c0 Hp|r1 r2 s1 s2 H1 IH1 H2 IH2|r1 r2 s0 H1 IH1|r1 r2 s0 H2 IH2
                  |r0|r0 s1 s2 H1 IH1 H2 IH2]; intros c s E; simpl.
  - discriminate.
  - injection E as -> <-. rewrite Hp. constructor.
  - destruct s1 as [|c1 s1'].
    + simpl in E. apply Matches_nullable in H1. rewrite H1.
      apply MAltR. now apply IH2.
    + simpl in E. injection E as -> <-.
      destruct (nullable r1); [apply MAltL|]; constructor; auto.
  - apply MAltL. auto.
  - apply MAltR. auto.
  - discriminate.
  - destruct s1 as [|c1 s1'].
    + simpl in E. now apply IH2.
    + simpl in E. injection E as -> <-. constructor; auto.
Qed.

(** The matcher decides the words of the expression. *)
Lemma test_Matches (s : string) : forall r, test r s = true <-> Matches r s.
Proof.
  induction s as [|c s IH]; intros r; simpl.
  - apply Matches_nullable.
  - rewrite IH. split.
    + apply Matches_deriv_sound.
    + intros H. now apply (Matches_deriv_complete r _ H).
Qed.

Lemma Matches_Seq (r1 r2 : regex) (s : string) :
  Matches (Seq r1 r2) s <->
  exists s1 s2, s = (s1 ++ s2)%string /\ Matches r1 s1 /\ Matches r2 s2.
Proof.
  split.
  - intros H. inversion H; subst. eauto.
  - intros (s1 & s2 & -> & H1 & H2). now constructor.
Qed.

Lemma Matches_Alt (r1 r2 : regex) (s : string) :
  Matches (Alt r1 r2) s <-> Matches r1 s \/ Matches r2 s.
Proof.
  split.
  - intros H. inversion H; subst; auto.
  - intros [H|H]; [apply MAltL | apply MAltR]; auto.
Qed.

Lemma Matches_Empty (s : string) : Matches Empty s <-> s = "".
Proof. split; [intros H; now inversion H | intros ->; constructor]. Qed.

Lemma Matches_Opt (r : regex) (s : string) : Matches (Opt r) s <-> Matches r s \/ s = "".
Proof. unfold Opt. now rewrite Matches_Alt, Matches_Empty. Qed.

Lemma Matches_Class (p : ascii -> bool) (s : string) :
  Matches (Class p) s <-> exists c, s = String c "" /\ p c = true.
Proof.
  split.
  - intros H. inversion H; subst. eauto.
  - intros (c & -> & H). now constructor.
Qed.

Lemma Matches_Lit (c : ascii) (s : string) : Matches (Lit c) s <-> s = String c "".
Proof.
  unfold Lit. rewrite Matches_Class. split.
  - intros (c' & -> & H). apply Ascii.eqb_eq in H. now subst.
  - intros ->. exists c. split; [reflexivity | apply Ascii.eqb_refl].
Qed.

Lemma Matches_Str (t s : string) : Matches (Str t) s <-> s = t.
Proof.
  revert s. induction t as [|c t IH]; intros s; simpl.
  - apply Matches_Empty.
  - rewrite Matches_Seq. split.
    + intros (s1 & s2 & -> & H1 & H2). apply Matches_Lit in H1. apply IH in H2.
      now subst.
    + intros ->. exists (String c ""), t. split; [reflexivity|].
      split; [now apply Matches_Lit | now apply IH].
Qed.

Lemma all_chars_cons (p : ascii -> bool) (c : ascii) (s : string) :
  all_chars p (String c s) = p c && all_chars p s.
Proof. reflexivity. Qed.

Lemma all_chars_app (p : ascii -> bool) (s1 s2 : string) :
  all_chars p (s1 ++ s2) = all_chars p s1 && all_chars p s2.
Proof.
  induction s1 as [|c s1 IH]; [reflexivity|].
  cbn [append]. rewrite !all_chars_cons, IH. apply andb_assoc.
Qed.

Lemma Matches_Star_Class (p : ascii -> bool) (s : string) :
  Matches (Star (Class p)) s <-> all_chars p s = true.
Proof.
  split.
  - intros H. remember (Star (Class p)) as r eqn:Er.
    induction H; try discriminate; [reflexivity|].
    injection Er as ->. apply Matches_Class in H as (c & -> & Hc).
    cbn [append]. rewrite all_chars_cons, Hc. now apply IHMatches2.
  - induction s as [|c s IH]; intros H.
    + constructor.
    + rewrite all_chars_cons in H. apply andb_true_iff in H as [Hc Hs].
      change (String c s) with (String c "" ++ s)%string.
      constructor; [now constructor | auto].
Qed.

Lemma Matches_Plus_Class (p : ascii -> bool) (s : string) :
  Matches (Plus (Class p)) s <-> s <> "" /\ all_chars p s = true.
Proof.
  unfold Plus. rewrite Matches_Seq. split.
  - intros (s1 & s2 & -> & H1 & H2). apply Matches_Class in H1 as (c & -> & Hc).
    apply Matches_Star_Class in H2. cbn [append]. split; [discriminate|].
    now rewrite all_chars_cons, Hc.
  - intros [Hne H]. destruct s as [|c s]; [contradiction|].
    rewrite all_chars_cons in H. apply andb_true_iff in H as [Hc Hs].
    exists (String c ""), s. split; [reflexivity|].
    split; [now constructor | now apply Matches_Star_Class].
Qed.

Lemma Matches_params (s : string) :
  Matches (Star (Seq (Lit "&"%char) (Star (Class (word_or "="%char))))) s <-> params s.
Proof.
  split.
  - intros H.
    remember (Star (Seq (Lit "&"%char) (Star (Class (word_or "="%char))))) as r eqn:Er.
    induction H; try discriminate; [constructor|].
    injection Er as ->. apply Matches_Seq in H as (a & run & -> & Ha & Hrun).
    apply Matches_Lit in Ha as ->. apply Matches_Star_Class in Hrun.
    cbn [append]. constructor; auto.
  - induction 1 as [|run rest Hrun Hrest IH].
    + constructor.
    + change (String "&" (run ++ rest)) with ((String "&" "" ++ run) ++ rest)%string
        || (rewrite <- (append_assoc (String "&" "") run rest)).
      constructor; [|exact IH].
      apply Matches_Seq. exists (String "&" ""), run. split; [reflexivity|].
      split; [now apply Matches_Lit | now apply Matches_Star_Class].
Qed.

(** The words of [youtubeRegex]. *)
Lemma youtubeRegex_words (url : string) :
  Matches youtubeRegex url <->
  exists scheme www marker id rest,
    url = (scheme ++ www ++ marker ++ id ++ rest)%string /\
    In scheme [""; "http://"; "https://"] /\
    In www [""; "www."] /\
    In marker ["youtube.com/watch?v="; "youtu.be/"; "youtube.com/shorts/"] /\
    id <> "" /\ all_chars (word_or "-"%char) id = true /\
    params rest.
Proof.
  unfold youtubeRegex, markers. split.
  - intros H.
    apply Matches_Seq in H as (scheme & s1 & -> & Hscheme & H).
    apply Matches_Seq in H as (www & s2 & -> & Hwww & H).
    apply Matches_Seq in H as (marker & s3 & -> & Hmarker & H).
    apply Matches_Seq in H as (id & rest & -> & Hid & Hrest).
    exists scheme, www, marker, id, rest. split; [reflexivity|].
    apply Matches_Plus_Class in Hid as [Hne Hid]. apply Matches_params in Hrest.
    repeat split; auto.
    + apply Matches_Opt in Hscheme as [Hs| ->]; [|simpl; auto].
      apply Matches_Seq in Hs as (a & b & -> & Ha & Hb). apply Matches_Str in Ha as ->.
      apply Matches_Seq in Hb as (x & y & -> & Hx & Hy). apply Matches_Str in Hy as ->.
      apply Matches_Opt in Hx as [Hx| ->]; [apply Matches_Lit in Hx as ->|]; simpl; auto.
    + apply Matches_Opt in Hwww as [Hs| ->]; [apply Matches_Str in Hs as ->|]; simpl; auto.
    + apply Matches_Alt in Hmarker as [Hm|Hm]; [apply Matches_Str in Hm as ->; simpl; auto|].
      apply Matches_Alt in Hm as [Hm|Hm]; apply Matches_Str in Hm as ->; simpl; auto.
  - intros (scheme & www & marker & id & rest & -> & Hscheme & Hwww & Hmarker
            & Hne & Hid & Hrest).
    constructor; [|constructor; [|constructor; [|constructor]]].
    + apply Matches_Opt. simpl in Hscheme.
      destruct Hscheme as [<-|[<-|[<-|[]]]]; [now right | left | left].
      * change "http://" with ("http" ++ "" ++ "://")%string.
        constructor; [now apply Matches_Str|].
        constructor; [apply Matches_Opt; now right | now apply Matches_Str].
      * change "https://" with ("http" ++ "s" ++ "://")%string.
        constructor; [now apply Matches_Str|].
        constructor; [apply Matches_Opt; left; now apply Matches_Lit | now apply Matches_Str].
    + apply Matches_Opt. simpl in Hwww.
      destruct Hwww as [<-|[<-|[]]]; [now right | left; now apply Matches_Str].
    + simpl in Hmarker. destruct Hmarker as [<-|[<-|[<-|[]]]].
      * apply MAltL. now apply Matches_Str.
      * apply MAltR, MAltL. now apply Matches_Str.
      * apply MAltR, MAltR. now apply Matches_Str.
    + now apply Matches_Plus_Class.
    + now apply Matches_params.
Qed.

Lemma validateYouTubeUrl_test (url : string) (h : Home) :
  fst (validateYouTubeUrl url h) = test youtubeRegex url.
Proof.
  unfold validateYouTubeUrl. destruct url as [|c url]; [reflexivity|].
  change (truthy (JStr (String c url))) with true. cbn [negb].
  now destruct (test youtubeRegex (String c url)).
Qed.

(** [validateYouTubeUrl] accepts exactly the strings made of an optional
    [http://] or [https://], an optional [www.], one of
    [youtube.com/watch?v=], [youtu.be/] and [youtube.com/shorts/], a
    non-empty run of [\w] and [-] characters, and any number of groups
    of [&] followed by [\w] and [=] characters. *)
Theorem validateYouTubeUrl_accepts (url : string) (h : Home) :
  fst (validateYouTubeUrl url h) = true <->
  exists scheme www marker id rest,
    url = (scheme ++ www ++ marker ++ id ++ rest)%string /\
    In scheme [""; "http://"; "https://"] /\
    In www [""; "www."] /\
    In marker ["youtube.com/watch?v="; "youtu.be/"; "youtube.com/shorts/"] /\
    id <> "" /\ all_chars (word_or "-"%char) id = true /\
    params rest.
Proof.
  rewrite validateYouTubeUrl_test. split.
  - intros H. apply test_Matches in H. now apply youtubeRegex_words.
  - intros H. apply test_Matches. now apply youtubeRegex_words.
Qed.

(** *** The page and the route on Shorts links *)

Lemma prefix_all_chars (p : ascii -> bool) (t : string) :
  forall s, String.prefix t s = true -> all_chars p s = true -> all_chars p t = true.
Proof.
  induction t as [|c t IH]; intros s Hp Hs; [reflexivity|].
  destruct s as [|c' s]; [discriminate|]. simpl in Hp.
  destruct (ascii_dec c c') as [<-|]; [|discriminate].
  rewrite all_chars_cons in *. apply andb_true_iff in Hs as [Hc Hs].
  rewrite Hc. simpl. eauto.
Qed.

Lemma includes_all_chars (p : ascii -> bool) (t s : string) :
  includes s t = true -> all_chars p s = true -> all_chars p t = true.
Proof.
  induction s as [|c s IH]; cbn [includes]; intros Hi Hs.
  - rewrite orb_false_r in Hi. exact (prefix_all_chars p t _ Hi Hs).
  - apply orb_true_iff in Hi as [Hi|Hi].
    + exact (prefix_all_chars p t _ Hi Hs).
    + rewrite all_chars_cons in Hs. apply andb_true_iff in Hs as [_ Hs]. auto.
Qed.

(** A Shorts link passes the page's validation and is refused by the
    route, which answers 400 without calling the backend, unless its
    video id begins with [watch]. *)
Theorem shorts_link_passes_page_fails_route
    (new_URL : JSValue -> Outcome URL) (JSON_parse : string -> Outcome JSValue)
    (backend : JSValue -> FetchResult) (id : string) (h : Home) :
  id <> "" -> all_chars (word_or "-"%char) id = true ->
  startsWith id "watch" = false ->
  new_URL (JStr (shorts_url id)) = Ok (shorts_URL id) ->
  fst (validateYouTubeUrl (shorts_url id) h) = true /\
  POST new_URL JSON_parse (Ok (JObj [("youtubeUrl", JStr (shorts_url id))])) backend
  = bad_request "Invalid YouTube URL format".
Proof.
  intros Hne Hid Hw Hurl. split.
  - rewrite validateYouTubeUrl_test. apply test_Matches, youtubeRegex_words.
    exists "https://", "www.", "youtube.com/shorts/", id, "".
    split; [unfold shorts_url; now rewrite RouteExtras.append_empty|].
    split; [right; right; now left|]. split; [right; now left|].
    split; [right; right; now left|]. split; [exact Hne|].
    split; [exact Hid | constructor].
  - assert (Hvalid : isValidYouTubeUrl new_URL (JStr (shorts_url id)) = Ok false).
    { unfold isValidYouTubeUrl, isValidYouTubeUrl_try. rewrite Hurl. cbn [bind].
      change (toLowerCase (hostname (shorts_URL id))) with "www.youtube.com".
      assert (He : includes (pathname (shorts_URL id)) "/embed/" = false).
      { cbn. destruct (String.prefix "embed/" id) eqn:E1.
        - now pose proof (prefix_all_chars _ _ _ E1 Hid).
        - destruct (includes id "/embed/") eqn:E2; [|reflexivity].
          now pose proof (includes_all_chars _ _ _ E2 Hid). }
      assert (Hp : includes (pathname (shorts_URL id)) "/watch" = false).
      { cbn. unfold startsWith in Hw. rewrite Hw.
        destruct (includes id "/watch") eqn:E2; [|reflexivity].
        now pose proof (includes_all_chars _ _ _ E2 Hid). }
      rewrite He, Hp. reflexivity. }
    unfold POST, POST_try. cbn [bind get_prop lookup]. rewrite String.eqb_refl.
    change (truthy (JStr (shorts_url id))) with true. cbn [negb].
    rewrite Hvalid. reflexivity.
Qed.

Lemma shorts_link_passes_page_fails_route_witness :
  fst (validateYouTubeUrl (shorts_url "abc123") (home_with (shorts_url "abc123"))) = true /\
  POST shorts_new_URL (JSON_parse_texts [])
       (Ok (JObj [("youtubeUrl", JStr (shorts_url "abc123"))])) (backend_streaming [])
  = bad_request "Invalid YouTube URL format".
Proof.
  apply (shorts_link_passes_page_fails_route shorts_new_URL (JSON_parse_texts [])
           (backend_streaming []) "abc123" (home_with (shorts_url "abc123")));
    [discriminate | reflexivity | reflexivity | reflexivity].
Defined.

(** *** The stream read by [handleAnalyze] *)

Lemma validateYouTubeUrl_true (url : string) (h : Home) :
  fst (validateYouTubeUrl url h) = true ->
  validateYouTubeUrl url h = (true, setUrlError None h).
Proof.
  unfold validateYouTubeUrl.
  destruct (negb (truthy (JStr url))); [discriminate|].
  destruct (negb (test youtubeRegex url)); [discriminate | reflexivity].
Qed.

(** One event changes neither the page's error nor a stage other than
    [error] into [error]. *)
Lemma on_data_keeps (data : JSValue) (s : PageState) :
  pageError (on_data data s) = pageError s /\
  (processingStage s <> error -> processingStage (on_data data s) <> error).
Proof.
  unfold on_data. destruct (get_prop data "status") as [st|e]; [|auto].
  repeat match goal with
         | |- context [if ?b then _ else _] => destruct b
         end; try (split; [reflexivity | intros _; discriminate]); auto.
  destruct (bind _ _); [split; [reflexivity | intros _; discriminate] | auto].
Qed.

Section HandleAnalyze.

Variable JSON_parse : string -> Outcome JSValue.

Lemma on_line_keeps (line : string) (s : PageState) :
  pageError (on_line JSON_parse line s) = pageError s /\
  (processingStage s <> error -> processingStage (on_line JSON_parse line s) <> error).
Proof.
  unfold on_line. destruct (_ || _); [auto|].
  destruct (JSON_parse _); [apply on_data_keeps | auto].
Qed.

Lemma for_lines_keeps (lines : list string) (s : PageState) :
  pageError (HomePage.for_lines JSON_parse lines s) = pageError s /\
  (processingStage s <> error ->
   processingStage (HomePage.for_lines JSON_parse lines s) <> error).
Proof.
  unfold HomePage.for_lines. revert s.
  induction lines as [|line rest IH]; intros s; cbn [fold_left]; [auto|].
  destruct (IH (on_line JSON_parse line s)) as [He Hs].
  destruct (on_line_keeps line s) as [He' Hs'].
  split; [congruence | auto].
Qed.

Lemma for_lines_app (l1 l2 : list string) (s : PageState) :
  HomePage.for_lines JSON_parse (l1 ++ l2) s
  = HomePage.for_lines JSON_parse l2 (HomePage.for_lines JSON_parse l1 s).
Proof. unfold HomePage.for_lines. apply fold_left_app. Qed.

Lemma page_read_loop_complete_lines (pending : list string) (ending : option Thrown)
      (buffer : string) (s : PageState) :
  no_newline buffer ->
  HomePage.read_loop JSON_parse pending ending buffer s
  = (HomePage.for_lines JSON_parse (complete_lines (buffer ++ received pending)) s, ending).
Proof.
  revert buffer s. induction pending as [|value rest IH]; intros buffer s Hb.
  - cbn [HomePage.read_loop received]. rewrite RouteExtras.append_empty.
    now rewrite complete_lines_no_newline.
  - cbn [HomePage.read_loop].
    change (received (value :: rest)) with (value ++ received rest)%string.
    rewrite <- append_assoc, complete_lines_append.
    assert (Hcl : fst (pop (split_lines (buffer ++ value))) = complete_lines (buffer ++ value))
      by reflexivity.
    assert (Hul : match snd (pop (split_lines (buffer ++ value))) with
                  | Some l => l
                  | None => ""
                  end = unfinished_line (buffer ++ value)) by reflexivity.
    destruct (pop (split_lines (buffer ++ value))) as [lines last].
    cbn [fst snd] in Hcl, Hul. rewrite Hul, Hcl.
    rewrite (IH _ _ (unfinished_line_no_newline _)). now rewrite for_lines_app.
Qed.

Lemma handleAnalyze_try_result (fetched : FetchResult) (s : PageState) :
  exists s',
    handleAnalyze_try JSON_parse fetched s = (s', transport_failure fetched) /\
    pageError s' = pageError s /\
    (processingStage s <> error -> processingStage s' <> error) /\
    (forall r script,
        fetched = Resolves r -> ok r = true -> body r = Some script ->
        s' = HomePage.for_lines JSON_parse (complete_lines (received (chunks script))) s).
Proof.
  unfold handleAnalyze_try, transport_failure.
  destruct fetched as [e|r].
  - exists s. repeat split; auto. discriminate.
  - destruct (ok r) eqn:Eok; cbn [negb].
    + destruct (body r) as [script|] eqn:Eb.
      * rewrite (page_read_loop_complete_lines _ _ "" s eq_refl).
        eexists. split; [reflexivity|].
        destruct (for_lines_keeps (complete_lines ("" ++ received (chunks script))) s)
          as [He Hs].
        split; [exact He|]. split; [exact Hs|].
        intros r' script' Hr _ Hb'. injection Hr as <-. rewrite Eb in Hb'.
        now injection Hb' as <-.
      * exists s. repeat split; auto. intros r' script' Hr _ Hb'.
        injection Hr as <-. congruence.
    + exists s. repeat split; auto. intros r' script' Hr Hok'.
      injection Hr as <-. congruence.
Qed.

(** What the page shows after a stream depends on the text received, not
    on the chunks it arrives in: the state is that of the downloading
    stage taken through the complete lines of the text, one after the
    other, with no stop at a terminal event. *)
Theorem handleAnalyze_reads_complete_lines
    (fetch : JSValue -> FetchResult) (h : Home) (r : BackendResponse)
    (script : ReadScript) :
  fst (validateYouTubeUrl (youtubeUrl h) h) = true ->
  fetch (JObj [("youtubeUrl", JStr (youtubeUrl h))]) = Resolves r ->
  ok r = true -> body r = Some script -> failure script = None ->
  view (handleAnalyze JSON_parse fetch h)
  = HomePage.for_lines JSON_parse (complete_lines (received (chunks script)))
      (setProcessingStage downloading (clearResult (setError None (view h)))).
Proof.
  intros Hv Hf Hok Hb Hfail. unfold handleAnalyze.
  rewrite (validateYouTubeUrl_true _ _ Hv). cbn [negb youtubeUrl setUrlError view].
  destruct (handleAnalyze_try_result
              (fetch (JObj [("youtubeUrl", JStr (youtubeUrl h))]))
              (setProcessingStage downloading (clearResult (setError None (view h)))))
    as (s' & Ht & _ & _ & Hs).
  rewrite Ht. rewrite Hf. unfold transport_failure. rewrite Hok, Hb, Hfail. cbn [negb].
  cbn [setView view]. exact (Hs r script Hf Hok Hb).
Qed.

(** The page ends in the [error] stage exactly when the transport
    failed: the fetch was rejected, the status was not a 2xx, there was
    no body, or a read failed; its error is then the message of that
    failure.  No event of the stream, an [error] event included, sets
    the page's error or the [error] stage. *)
Theorem page_error_iff_transport_failure (fetch : JSValue -> FetchResult) (h : Home) :
  fst (validateYouTubeUrl (youtubeUrl h) h) = true ->
  pageError (view (handleAnalyze JSON_parse fetch h))
  = option_map (fun e => message_or e "Failed to analyze video. Please try again.")
      (transport_failure (fetch (JObj [("youtubeUrl", JStr (youtubeUrl h))]))) /\
  (processingStage (view (handleAnalyze JSON_parse fetch h)) = error <->
   transport_failure (fetch (JObj [("youtubeUrl", JStr (youtubeUrl h))])) <> None).
Proof.
  intros Hv. unfold handleAnalyze.
  rewrite (validateYouTubeUrl_true _ _ Hv). cbn [negb youtubeUrl setUrlError view].
  destruct (handleAnalyze_try_result
              (fetch (JObj [("youtubeUrl", JStr (youtubeUrl h))]))
              (setProcessingStage downloading (clearResult (setError None (view h)))))
    as (s' & Ht & He & Hs & _).
  rewrite Ht.
  destruct (transport_failure _) as [err|]; cbn [setView view option_map].
  - split; [reflexivity|]. split; [discriminate | reflexivity].
  - split; [exact He|]. split; [|congruence].
    intros H. exfalso. apply Hs; [discriminate | exact H].
Qed.

End HandleAnalyze.

Lemma handleAnalyze_reads_complete_lines_witness :
  view (handleAnalyze (JSON_parse_texts route_frames)
          (fun _ => Resolves (streamed (chunks route_frames_script)))
          (home_with watch_url))
  = HomePage.for_lines (JSON_parse_texts route_frames)
      (complete_lines (received (chunks route_frames_script)))
      (setProcessingStage downloading
         (clearResult (setError None (view (home_with watch_url))))).
Proof.
  apply (handleAnalyze_reads_complete_lines (JSON_parse_texts route_frames)
           (fun _ => Resolves (streamed (chunks route_frames_script)))
           (home_with watch_url) (streamed (chunks route_frames_script))
           route_frames_script); reflexivity.
Defined.

Lemma page_error_iff_transport_failure_witness :
  pageError (view (handleAnalyze (JSON_parse_texts []) (fun _ => Resolves refusal_400)
                     (home_with watch_url)))
  = option_map (fun e => message_or e "Failed to analyze video. Please try again.")
      (transport_failure (Resolves refusal_400)) /\
  (processingStage (view (handleAnalyze (JSON_parse_texts [])
                            (fun _ => Resolves refusal_400) (home_with watch_url))) = error <->
   transport_failure (Resolves refusal_400) <> None).
Proof.
  apply (page_error_iff_transport_failure (JSON_parse_texts [])
           (fun _ => Resolves refusal_400) (home_with watch_url)).
  reflexivity.
Defined.

(** *** The song list *)

Lemma own_push (g k : string) (song : Song) (acc : Groups) :
  own g (push k song acc)
  = if String.eqb g k then option_map (fun l => l ++ [song]) (own g acc) else own g acc.
Proof.
  induction acc as [|[k' v] acc IH]; cbn [push own].
  - now destruct (String.eqb g k).
  - destruct (String.eqb_spec k k') as [->|Hk]; cbn [own].
    + now destruct (String.eqb g k').
    + rewrite IH. destruct (String.eqb_spec g k') as [->|Hg]; [|reflexivity].
      destruct (String.eqb_spec k' k); [congruence | reflexivity].
Qed.

Lemma own_snoc (g k : string) (v : list Song) (acc : Groups) :
  own g (acc ++ [(k, v)])
  = match own g acc with
    | Some l => Some l
    | None => if String.eqb g k then Some v else None
    end.
Proof.
  induction acc as [|[k' v'] acc IH]; cbn [app own]; [reflexivity|].
  now destruct (String.eqb g k').
Qed.

Lemma songs_of_genre_snoc (g : string) (seen : list Song) (song : Song) :
  songs_of_genre g (seen ++ [song])
  = songs_of_genre g seen ++ (if String.eqb (genre_of song) g then [song] else []).
Proof. unfold songs_of_genre. rewrite filter_app. reflexivity. Qed.

Lemma grouped_own_some (acc : Groups) (seen : list Song) (g : string) (l : list Song) :
  grouped acc seen -> own g acc = Some l ->
  l = songs_of_genre g seen /\ exists song, In song seen /\ genre_of song = g.
Proof.
  intros I Ho. rewrite (I g) in Ho.
  destruct (songs_of_genre g seen) as [|x xs] eqn:Ef; [discriminate|].
  injection Ho as <-. split; [reflexivity|].
  assert (Hx : In x (songs_of_genre g seen)) by (rewrite Ef; now left).
  apply filter_In in Hx as [Hin Hg]. apply String.eqb_eq in Hg. eauto.
Qed.

Lemma grouped_own_none (acc : Groups) (seen : list Song) (g : string) :
  grouped acc seen -> own g acc = None -> songs_of_genre g seen = [].
Proof.
  intros I Ho. rewrite (I g) in Ho. now destruct (songs_of_genre g seen).
Qed.

Lemma group_step_grouped (acc acc' : Groups) (seen : list Song) (song : Song) :
  grouped acc seen -> group_step acc song = Ok acc' -> grouped acc' (seen ++ [song]).
Proof.
  intros I H g. rewrite songs_of_genre_snoc. unfold group_step in H.
  destruct (own (genre_of song) acc) as [l|] eqn:Eo.
  - injection H as <-. rewrite own_push.
    destruct (String.eqb_spec g (genre_of song)) as [->|Hg].
    + rewrite Eo, String.eqb_refl. cbn [option_map].
      destruct (grouped_own_some _ _ _ _ I Eo) as [<- _].
      destruct l; reflexivity.
    + destruct (String.eqb_spec (genre_of song) g) as [E|_]; [congruence|].
      rewrite app_nil_r. apply I.
  - destruct (inherited (genre_of song)); [discriminate|]. injection H as <-.
    rewrite own_push, own_snoc.
    destruct (String.eqb_spec g (genre_of song)) as [->|Hg].
    + rewrite Eo, String.eqb_refl. cbn [option_map].
      now rewrite (grouped_own_none _ _ _ I Eo).
    + destruct (String.eqb_spec (genre_of song) g) as [E|_]; [congruence|].
      rewrite app_nil_r, (I g). now destruct (songs_of_genre g seen).
Qed.

Lemma reduce_grouped (songs : list Song) :
  forall acc seen groups,
    grouped acc seen -> reduce songs acc = Ok groups -> grouped groups (seen ++ songs).
Proof.
  induction songs as [|song rest IH]; intros acc seen groups I H; cbn [reduce] in H.
  - injection H as <-. now rewrite app_nil_r.
  - destruct (group_step acc song) as [acc'|e] eqn:Es; [|discriminate]. cbn [bind] in H.
    change (seen ++ song :: rest) with (seen ++ [song] ++ rest). rewrite app_assoc.
    eapply IH; [|exact H]. eapply group_step_grouped; eauto.
Qed.

Lemma grouped_nil : grouped [] [].
Proof. intros g. reflexivity. Qed.

Lemma groupedSongs_own (songs : list Song) (groups : Groups) (g : string) :
  groupedSongs songs = Ok groups ->
  own g groups = match songs_of_genre g songs with
                 | [] => None
                 | l => Some l
                 end.
Proof. intros H. exact (reduce_grouped songs [] [] groups grouped_nil H g). Qed.


Lemma reduce_ok_iff (songs : list Song) :
  forall acc seen,
    grouped acc seen ->
    (forall song, In song seen -> inherited (genre_of song) = false) ->
    ((exists groups, reduce songs acc = Ok groups) <->
     (forall song, In song songs -> inherited (genre_of song) = false)).
Proof.
  induction songs as [|song rest IH]; intros acc seen I Hseen; cbn [reduce].
  - split; [intros _ song [] | eauto].
  - assert (Hstep : (exists acc', group_step acc song = Ok acc')
                    <-> inherited (genre_of song) = false).
    { unfold group_step. destruct (own (genre_of song) acc) as [l|] eqn:Eo.
      - destruct (grouped_own_some _ _ _ _ I Eo) as (_ & x & Hx & Eg).
        split; [intros _; rewrite <- Eg; auto | eauto].
      - destruct (inherited (genre_of song)).
        + split; [intros [acc' H]; discriminate | discriminate].
        + split; eauto. }
    split.
    + intros [groups H]. destruct (group_step acc song) as [acc'|e] eqn:Es; [|discriminate].
      cbn [bind] in H. assert (Hs : inherited (genre_of song) = false) by (apply Hstep; eauto).
      intros x [<-|Hx]; [exact Hs|].
      apply (IH acc' (seen ++ [song])); eauto using group_step_grouped.
      intros y Hy. apply in_app_or in Hy as [Hy|[<-|[]]]; auto.
    + intros Hall. assert (Hs : inherited (genre_of song) = false) by (apply Hall; now left).
      apply Hstep in Hs as [acc' Es]. rewrite Es. cbn [bind].
      apply (IH acc' (seen ++ [song])); eauto using group_step_grouped.
      * intros y Hy. apply in_app_or in Hy as [Hy|[<-|[]]]; auto. apply Hall. now left.
      * intros y Hy. apply Hall. now right.
Qed.

(** [groupedSongs] is built without an exception exactly when no song
    has for genre the name of a property of [Object.prototype]
    ([constructor], [toString], ...); with such a song the reducer
    throws a [TypeError] and the module does not load. *)
Theorem groupedSongs_ok_iff (songs : list Song) :
  (exists groups, groupedSongs songs = Ok groups) <->
  (forall song, In song songs -> inherited (genre_of song) = false).
Proof.
  unfold groupedSongs. apply (reduce_ok_iff songs [] [] grouped_nil). intros song [].
Qed.

(** "Songs by Genre" shows one block for each name of [genreOrder] that
    is the genre of a song, with all the songs of that genre in the
    order of the list; songs of any other genre are shown nowhere. *)
Theorem songs_by_genre_blocks (songs : list Song) (groups : Groups)
        (g : string) (l : list Song) :
  groupedSongs songs = Ok groups ->
  (In (g, l) (songs_by_genre groups) <->
   In g genreOrder /\ l = songs_of_genre g songs /\ l <> []).
Proof.
  intros H. unfold songs_by_genre. rewrite in_flat_map. split.
  - intros (g0 & Hg0 & Hin). rewrite (groupedSongs_own _ _ g0 H) in Hin.
    destruct (songs_of_genre g0 songs) as [|x xs] eqn:Ef; [contradiction|].
    cbn in Hin. destruct Hin as [E|[]]. injection E as <- <-.
    rewrite Ef. repeat split; [exact Hg0 | discriminate].
  - intros (Hg & -> & Hne). exists g. split; [exact Hg|].
    rewrite (groupedSongs_own _ _ g H).
    destruct (songs_of_genre g songs) as [|x xs]; [contradiction|]. now left.
Qed.


Lemma songs_by_genre_blocks_witness :
  In ("Unknown", songs_of_genre "Unknown" three_songs) (songs_by_genre three_songs_groups) <->
  In "Unknown" genreOrder /\
  songs_of_genre "Unknown" three_songs = songs_of_genre "Unknown" three_songs /\
  songs_of_genre "Unknown" three_songs <> [].
Proof.
  apply (songs_by_genre_blocks three_songs three_songs_groups "Unknown"
           (songs_of_genre "Unknown" three_songs)).
  reflexivity.
Defined.

End PageExtras.

(* ================================================================= *)
(** ** The example component on the hook *)

Module ExampleExtras.
Import JS.
Import MatchRoute.
Import Hook.

Import MatchExample.
Import Statements.
Import Readings.
Import Samples.
Import MoreSamples.
Import JSFacts.

Lemma strict_eq_str_eq (v : JSValue) (s : string) :
  strict_eq_str v s = true -> v = JStr s.
Proof.
  destruct v; try discriminate. simpl. intros H. apply String.eqb_eq in H. now subst.
Qed.

Lemma is_complete_terminal (u : JSValue) :
  is_complete u = true -> terminal u = true /\ is_error u = false.
Proof.
  unfold is_complete, status_of, terminal, is_error.
  destruct (get_prop u "status") as [st|e]; [|discriminate].
  intros H. apply strict_eq_str_eq in H. subst st. split; reflexivity.
Qed.

Lemma is_error_terminal (u : JSValue) : is_error u = true -> terminal u = true.
Proof.
  unfold terminal, is_error. destruct (get_prop u "status") as [st|e]; [|discriminate].
  intros ->. apply orb_true_r.
Qed.

(** Only the last of the updates processed can be terminal. *)
Lemma terminal_in_up_to_terminal (us : list JSValue) (u : JSValue) :
  In u (up_to_terminal us) -> terminal u = true ->
  last (up_to_terminal us) JNull = u /\ existsb terminal us = true.
Proof.
  induction us as [|x us IH]; cbn [up_to_terminal existsb]; [intros []|].
  destruct (terminal x) eqn:Ex.
  - intros [<-|[]] _. split; reflexivity.
  - intros [<-|Hin] Hu; [congruence|]. destruct (IH Hin Hu) as [Hl He].
    split; [|exact He]. destruct (up_to_terminal us); [contradiction | exact Hl].
Qed.

Lemma last_in {A} (l : list A) (d : A) : l <> [] -> In (last l d) l.
Proof.
  induction l as [|x l IH]; [contradiction|]. intros _.
  destruct l as [|y l]; [now left|]. right. apply IH. discriminate.
Qed.

Section StartMatch.

Variable JSON_parse : string -> Outcome JSValue.
Variable ToString : JSValue -> string.

Lemma on_data_error_from_event (jsonData : string) (r : Run) :
  error_from_event r -> error_from_event (fst (on_data JSON_parse jsonData r)).
Proof.
  intros Q. unfold on_data. destruct (JSON_parse jsonData) as [update|e]; [|exact Q].
  assert (Q' : error_from_event (setCurrentUpdate update r)).
  { destruct Q as [Q|(v & Hv & He)]; [now left|]. right. exists v.
    split; [|exact He]. cbn. apply in_or_app. now left. }
  destruct (get_prop update "status") as [st|e] eqn:Est; [|exact Q'].
  destruct (strict_eq_str st "complete" || strict_eq_str st "error"); [|exact Q'].
  destruct (strict_eq_str st "error") eqn:Ee.
  - destruct (get_prop update "error") as [x|e]; cbn [fst].
    + right. exists update. split.
      * cbn. apply in_or_app. right. now left.
      * unfold is_error. now rewrite Est.
    + destruct Q' as [Q'|(v & Hv & He)]; [now left|]. right. exists v. auto.
  - cbn [fst]. destruct Q' as [Q'|(v & Hv & He)]; [now left|]. right. exists v. auto.
Qed.

Lemma for_lines_error_from_event (lines : list string) (r : Run) :
  error_from_event r -> error_from_event (fst (for_lines JSON_parse lines r)).
Proof.
  revert r. induction lines as [|line rest IH]; intros r Q; cbn [for_lines]; [exact Q|].
  cbv zeta. destruct (_ || _); [now apply IH|].
  pose proof (on_data_error_from_event (substring_from 6 (trim line)) r Q) as Q'.
  destruct (on_data JSON_parse _ r) as [r' stop]. cbn [fst] in Q'.
  destruct stop; [exact Q' | now apply IH].
Qed.

Lemma read_loop_error_from_event (pending : list string) (ending : option Thrown)
      (buffer : string) (r : Run) :
  error_from_event r ->
  error_from_event (fst (Hook.read_loop JSON_parse pending ending buffer r)).
Proof.
  assert (Hs : forall r', error_from_event r' -> error_from_event (setIsStreaming false r')).
  { intros r' [Q|Q]; [now left | now right]. }
  revert buffer r. induction pending as [|value rest IH]; intros buffer r Q;
    cbn [Hook.read_loop].
  - destruct (cancelled r); [now apply Hs|]. destruct ending; [exact Q | now apply Hs].
  - destruct (cancelled r); [now apply Hs|]. cbv zeta.
    destruct (pop _) as [lines last]. apply IH. now apply for_lines_error_from_event.
Qed.

(** What a run over a body ends with: the updates up to the first
    terminal one, the last of them as current update, and an error that
    comes from an event if there was a terminal one. *)
Lemma startMatch_body (script : ReadScript) :
  let r := startMatch JSON_parse ToString (Body script) in
  let us := parsed_updates JSON_parse (received (chunks script)) in
  processed r = up_to_terminal us /\
  currentUpdate (hook r) = last (up_to_terminal us) JNull /\
  (existsb terminal us = true -> error_from_event r).
Proof.
  cbv zeta. unfold startMatch, startMatch_try.
  pose proof (HookExtras.read_loop_follows JSON_parse (chunks script) (failure script) ""
                {| hook := {| currentUpdate := JNull; isStreaming := true; error := JNull |};
                   cancelled := false; processed := [] |} eq_refl eq_refl)
    as ((Hp & _ & _ & Hc & Hc0) & Hsnd & _).
  pose proof (read_loop_error_from_event (chunks script) (failure script) ""
                {| hook := {| currentUpdate := JNull; isStreaming := true; error := JNull |};
                   cancelled := false; processed := [] |} (or_introl eq_refl)) as Q.
  change ("" ++ received (chunks script))%string with (received (chunks script)) in *.
  destruct (Hook.read_loop JSON_parse _ _ _ _) as [r' thrown].
  cbn [fst snd setIsStreaming processed hook currentUpdate app] in *.
  assert (Hcur : currentUpdate (hook r')
                 = last (up_to_terminal
                           (parsed_updates JSON_parse (received (chunks script)))) JNull).
  { destruct (parsed_updates JSON_parse (received (chunks script))) as [|u us] eqn:Eus.
    - now apply Hc0.
    - apply Hc. discriminate. }
  destruct thrown as [e|].
  - cbn. repeat split; auto. intros Ht. rewrite Ht in Hsnd. discriminate.
  - auto.
Qed.

(** The progress bar of the example is green exactly when a [complete]
    event was processed; and a [complete] event that was processed is
    the last one processed, is the current update, and leaves the hook's
    error [null]. *)
Theorem progress_bar_green_iff_complete (fetched : Fetched) :
  (getProgressColor (error (hook (startMatch JSON_parse ToString fetched)))
                    (currentUpdate (hook (startMatch JSON_parse ToString fetched)))
   = "bg-green-500"
   <-> existsb is_complete (processed (startMatch JSON_parse ToString fetched)) = true) /\
  (forall u,
      In u (processed (startMatch JSON_parse ToString fetched)) ->
      is_complete u = true ->
      last_update (processed (startMatch JSON_parse ToString fetched)) = u /\
      currentUpdate (hook (startMatch JSON_parse ToString fetched)) = u /\
      error (hook (startMatch JSON_parse ToString fetched)) = JNull).
Proof.
  assert (Hgreen : forall e u,
             getProgressColor e u = "bg-green-500" ->
             is_complete u = true).
  { intros e u. unfold getProgressColor, is_complete.
    destruct (truthy e || strict_eq_str (status_of u) "error"); [discriminate|].
    now destruct (strict_eq_str (status_of u) "complete"). }
  assert (Hnone : forall r : Run, processed r = [] ->
             (getProgressColor (error (hook r)) (currentUpdate (hook r)) = "bg-green-500"
              -> is_complete (currentUpdate (hook r)) = true) ->
             currentUpdate (hook r) = JNull ->
             (getProgressColor (error (hook r)) (currentUpdate (hook r)) = "bg-green-500"
              <-> existsb is_complete (processed r) = true) /\
             (forall u, In u (processed r) -> is_complete u = true ->
                        last_update (processed r) = u /\ currentUpdate (hook r) = u /\
                        error (hook r) = JNull)).
  { intros r Hp Hg Hc. rewrite Hp. split.
    - split; [|discriminate]. intros H. apply Hg in H. rewrite Hc in H. discriminate.
    - intros u []. }
  destruct fetched as [e|code errorData| |script].
  1-3: (apply Hnone; [| apply Hgreen |];
        unfold startMatch, startMatch_try;
        try destruct (bind errorData _); reflexivity).
  clear Hnone.
  destruct (startMatch_body script) as (Hp & Hc & Hq).
  set (r := startMatch JSON_parse ToString (Body script)) in *.
  set (us := parsed_updates JSON_parse (received (chunks script))) in *.
  assert (Hlast : forall u, In u (processed r) -> is_complete u = true ->
                  last_update (processed r) = u /\ currentUpdate (hook r) = u /\
                  error (hook r) = JNull).
  { intros u Hin Hu.
    destruct (is_complete_terminal u Hu) as [Ht He].
    rewrite Hp in Hin. destruct (terminal_in_up_to_terminal us u Hin Ht) as [Hl Hex].
    unfold last_update. rewrite Hp, Hc, Hl. split; [reflexivity|]. split; [reflexivity|].
    destruct (Hq Hex) as [Q|(v & Hv & Hve)]; [exact Q|].
    rewrite Hp in Hv.
    destruct (terminal_in_up_to_terminal us v Hv (is_error_terminal v Hve)) as [Hl' _].
    congruence. }
  split; [|exact Hlast]. split.
  - intros H. apply Hgreen in H. apply existsb_exists.
    exists (currentUpdate (hook r)). split; [|exact H].
    rewrite Hc, Hp. apply last_in. intros E. rewrite Hc, E in H. discriminate.
  - intros H. apply existsb_exists in H as (u & Hin & Hu).
    destruct (Hlast u Hin Hu) as (_ & Hcur & Herr).
    destruct (is_complete_terminal u Hu) as [_ He].
    rewrite Herr, Hcur. unfold getProgressColor. cbn [truthy orb].
    unfold is_complete in Hu. unfold is_error in He. unfold status_of in *.
    destruct (get_prop u "status") as [st|e]; [|discriminate].
    rewrite He, Hu. reflexivity.
Qed.

End StartMatch.

End ExampleExtras.

(* ================================================================= *)
(** ** From the backend to the results section *)

Module Delivery.
Import JS.
Import MatchRoute.
Import Page.
Import HomePage.
Import Transport.
Import Statements.
Import Readings.
Import Samples.
Import MoreSamples.
Import JSFacts.
Import MatchRouteFacts.




Section EndToEnd.

Variable new_URL : JSValue -> Outcome URL.
Variable route_parse : string -> Outcome JSValue.
Variable page_parse : string -> Outcome JSValue.
Variable JSON_stringify : JSValue -> string.








End EndToEnd.



End Delivery.
